(** * The Virtual Fisher control loop (src/fisher.js), embedded and verified

    The class [Fisher] of src/fisher.js drives a chat bot through a browser
    page: it types a slash command, polls the message list until it stops
    growing, looks for a captcha in the last two messages and picks the next
    command from the text of the last message.

    The embedding follows the first revision contained in src/fisher.js (the
    one with the 0.3 s render delay and the polling [getLastMessage]).

    Modelling decisions, all of them visible in the definitions below:

    - Text is a [string] of 8-bit characters, read as the Latin-1 code units
      of a JavaScript string.  [toLowerCase], [includes], [length], the
      regular expression classes [\s] and [\S] and the [/i] flag are exact on
      that range.
    - The page is an oracle: [timeline page t] is the list of message
      elements present at clock time [t] (oldest first); an element whose
      [textContent()] rejects is [None].  Reading the page takes no time.
    - Time is the millisecond clock read by [Date.now()].  Numbers that
      are not whole milliseconds ([config.cooldown], the seconds handed to
      [wait]) are IEEE doubles, computed with the kernel's binary64
      arithmetic as JavaScript computes them.
    - A timer asked for [ms] milliseconds takes Node's delay [timerDelay ms]
      (the whole part of [ms], or 1 when [ms] is not between 1 and
      2^31-1) and is late by [jitter].  That the model's timers are never
      early is used to bound the number of polls of the two loops and for
      nothing else: no duration stated below rests on it.
    - Every call on the text box and every timer is appended to a trace.
    - [console.log] and the attachment listing of [handleCaptcha], which
      only feed the log, are left out.  The page calls themselves do not fail
      (a failing transport is outside this development).
    - An [async] method is a function from the world to an outcome: a value
      and a world, a thrown error and the world at the throw, or
      [OutOfFuel] for a loop that was cut off by the model's fuel. *)

From Stdlib Require Import ZArith List String Ascii Bool Lia.
From Stdlib Require Import PrimFloat SpecFloat FloatOps.
Import ListNotations.

#[local] Set Warnings "-inexact-float".

Local Open Scope string_scope.
Local Open Scope list_scope.
Local Open Scope Z_scope.

(** ** JavaScript string operations *)

Module Js.

(** Code unit of a character. *)
Definition code (c : ascii) : N := N_of_ascii c.

(** [String.prototype.toLowerCase] on one Latin-1 code unit: A-Z and the
    accented capitals U+00C0..U+00DE (without the multiplication sign
    U+00D7) move up by 32. *)
Definition lowerChar (c : ascii) : ascii :=
  let n := code c in
  if ((65 <=? n) && (n <=? 90) ||
      (192 <=? n) && (n <=? 222) && negb (n =? 215))%N
  then ascii_of_N (n + 32)
  else c.

Fixpoint toLowerCase (s : string) : string :=
  match s with
  | EmptyString => EmptyString
  | String c s' => String (lowerChar c) (toLowerCase s')
  end.

(** [s.startsWith(p)]. *)
Fixpoint startsWith (s p : string) {struct p} : bool :=
  match p, s with
  | EmptyString, _ => true
  | String _ _, EmptyString => false
  | String a p', String b s' => Ascii.eqb a b && startsWith s' p'
  end.

(** [s.includes(t)]: [t] occurs at some position of [s]. *)
Fixpoint includes (s t : string) : bool :=
  startsWith s t ||
  match s with
  | EmptyString => false
  | String _ s' => includes s' t
  end.

(** The class [\s] on Latin-1: TAB, LF, VT, FF, CR, space and NBSP. *)
Definition isSpace (c : ascii) : bool :=
  let n := code c in
  ((9 <=? n) && (n <=? 13) || (n =? 32) || (n =? 160))%N.

(** [x || d] on a possibly undefined string: [undefined] and the empty
    string are falsy. *)
Definition orElse (x : option string) (d : string) : string :=
  match x with
  | Some EmptyString => d
  | Some s => s
  | None => d
  end.

(** [!x] on a possibly undefined string. *)
Definition falsy (x : option string) : bool :=
  match x with
  | Some EmptyString => true
  | Some _ => false
  | None => true
  end.

(** *** Numbers

    A whole number of milliseconds as the double JavaScript holds it: the
    nearest binary64 value (the number itself below 2^53). *)
Definition numberOfZ (z : Z) : float :=
  SF2Prim (binary_normalize prec emax z 0 false).

(** [Math.trunc] of a finite double; 0 stands for the others, which no
    caller passes. *)
Definition truncate (x : float) : Z :=
  match Prim2SF x with
  | S754_finite negative m e =>
      let magnitude :=
        if (0 <=? e)%Z then Z.shiftl (Z.pos m) e else Z.shiftr (Z.pos m) (- e) in
      if negative then (- magnitude)%Z else magnitude
  | _ => 0%Z
  end.

(** *** The regular expression [/Code:\s*(\S+)/i]

    A literal letter of the pattern matches a character with the same
    case folding.  [\s*] is greedy and [\S+] cannot start on a blank, so
    giving blanks back never helps: at one position the match succeeds
    exactly when the blanks after the label are followed by a non-blank,
    and group 1 is the longest run of non-blanks there.  The search tries
    the positions from left to right. *)

Fixpoint stripLiteralCI (p s : string) {struct p} : option string :=
  match p, s with
  | EmptyString, _ => Some s
  | String _ _, EmptyString => None
  | String a p', String b s' =>
      if Ascii.eqb (lowerChar a) (lowerChar b) then stripLiteralCI p' s'
      else None
  end.

Fixpoint skipSpaces (s : string) : string :=
  match s with
  | EmptyString => EmptyString
  | String c s' => if isSpace c then skipSpaces s' else s
  end.

Fixpoint takeNonSpaces (s : string) : string :=
  match s with
  | EmptyString => EmptyString
  | String c s' => if isSpace c then EmptyString else String c (takeNonSpaces s')
  end.

(** The match anchored at the start of [s]: group 1 when it succeeds. *)
Definition matchCodeAt (s : string) : option string :=
  match stripLiteralCI "Code:" s with
  | None => None
  | Some rest =>
      match takeNonSpaces (skipSpaces rest) with
      | EmptyString => None
      | g => Some g
      end
  end.

(** [s.match(/Code:\s*(\S+)/i)], reduced to group 1 of the leftmost
    match ([None] for [null]). *)
Fixpoint matchCode (s : string) : option string :=
  match matchCodeAt s with
  | Some g => Some g
  | None =>
      match s with
      | EmptyString => None
      | String _ s' => matchCode s'
      end
  end.

End Js.

(** ** The page, the configuration and the world *)

(** What the page automation surface is asked to do. *)
Inductive Event : Type :=
| Fill (text : string)               (* input.fill(text) *)
| Press (key : string)               (* input.press(key) *)
| PressSequentially (text : string)  (* input.pressSequentially(text) *)
| WaitForTimeout (ms : float).       (* page.waitForTimeout(ms) *)

(** The browser page as an oracle over the clock. *)
Record Page : Type := mkPage {
  timeline : Z -> list (option string);
  jitter : Z -> N
}.

Record Config : Type := mkConfig {
  cooldown : float;
  baitType : string
}.

(** The mutable part: the clock, the two fields the constructor
    initialises ([running], [lastFishResponseTime]) and the trace. *)
Record World : Type := mkWorld {
  now : Z;
  running : bool;
  lastFishResponseTime : Z;
  trace : list Event
}.

(** The two [throw new Error(...)] of the class. *)
Inductive Error : Type :=
| UnknownAction (action : string)
| ImageCaptchaError.

Definition message (e : Error) : string :=
  match e with
  | UnknownAction action => "Unknown action: " ++ action
  | ImageCaptchaError =>
      "Image captcha detected - manual intervention required. Terminating."
  end.

Inductive Outcome (A : Type) : Type :=
| Ret (a : A) (w : World)
| Throw (e : Error) (w : World)
| OutOfFuel.

Arguments Ret {A} a w.
Arguments Throw {A} e w.
Arguments OutOfFuel {A}.

Definition M (A : Type) : Type := World -> Outcome A.

Definition ret {A} (a : A) : M A := fun w => Ret a w.

Definition bind {A B} (m : M A) (k : A -> M B) : M B :=
  fun w =>
    match m w with
    | Ret a w' => k a w'
    | Throw e w' => Throw e w'
    | OutOfFuel => OutOfFuel
    end.

Definition throw {A} (e : Error) : M A := fun w => Throw e w.

(** [try { body } catch (err) { handler(err) }]. *)
Definition tryCatch {A} (body : M A) (handler : Error -> M A) : M A :=
  fun w =>
    match body w with
    | Throw e w' => handler e w'
    | r => r
    end.

Declare Scope fisher_scope.
Delimit Scope fisher_scope with fisher.
Notation "x <- m ;; k" := (bind m (fun x => k))
  (at level 61, m at next level, right associativity) : fisher_scope.
Notation "m ;;; k" := (bind m (fun _ => k))
  (at level 61, right associativity) : fisher_scope.
Local Open Scope fisher_scope.

(** The world an outcome ends in, when there is one. *)
Definition finalWorld {A} (r : Outcome A) : option World :=
  match r with
  | Ret _ w => Some w
  | Throw _ w => Some w
  | OutOfFuel => None
  end.

(** The captcha objects [{type:'text', answer, fullMessage}] and
    [{type:'image', fullMessage}]; [null] is [None]. *)
Inductive Captcha : Type :=
| TextCaptcha (answer fullMessage : string)
| ImageCaptcha (fullMessage : string).

Definition dateNow : M Z := fun w => Ret (now w) w.

Definition emit (e : Event) : M unit :=
  fun w => Ret tt (mkWorld (now w) (running w) (lastFishResponseTime w)
                           (trace w ++ [e])).

Section Fisher.

Variable page : Page.
Variable config : Config.

(** The delay Node's [setTimeout] takes for [ms]: a delay that is not
    between 1 and 2^31-1 (too small, too large, NaN) is replaced by 1, and
    the whole part of it is what the timer waits.  The whole part of a
    number from 1 on is 1 at least, which the maximum records. *)
Definition timerDelay (ms : float) : Z :=
  if ((1 <=? ms)%float && (ms <=? 2147483647)%float)%bool
  then Z.max 1 (Js.truncate ms)
  else 1.

(** [page.waitForTimeout(ms)]. *)
Definition waitForTimeout (ms : float) : M unit :=
  fun w =>
    Ret tt (mkWorld (now w + timerDelay ms + Z.of_N (jitter page (now w)))
                    (running w) (lastFishResponseTime w)
                    (trace w ++ [WaitForTimeout ms])).

(** [wait(seconds)], lines 299-301. *)
Definition wait (seconds : float) : M unit :=
  waitForTimeout (seconds * 1000)%float.

(** [elements.nth(i).textContent().catch(() => '')] on the elements
    present at one instant. *)
Definition textContentOr (elements : list (option string)) (i : nat) : string :=
  match nth_error elements i with
  | Some (Some text) => text
  | Some None => ""
  | None => ""
  end.

(** [getMessageCount()], lines 195-198. *)
Definition getMessageCount : M Z :=
  fun w => Ret (Z.of_nat (List.length (timeline page (now w)))) w.

(** [getLastMessages(count)], lines 237-250: the texts of the elements
    [start .. total-1]. *)
Definition getLastMessages (count : Z) : M (list string) :=
  fun w =>
    let elements := timeline page (now w) in
    let total := Z.of_nat (List.length elements) in
    let start := Z.max 0 (total - count) in
    Ret (map (textContentOr elements)
             (seq (Z.to_nat start) (Z.to_nat (total - start)))) w.

(** The test [isVirtualFisherResponse] of [getLastMessage],
    lines 213-219. *)
Definition isVirtualFisherResponse (msg : string) : bool :=
  Js.includes msg "You caught" ||
  Js.includes msg "You sold" ||
  Js.includes msg "You bought" ||
  Js.includes msg "Bait purchase" ||
  Js.includes msg "You ran out of" ||
  Js.includes msg "Anti-bot".

(** The [while (Date.now() - startTime < timeoutMs)] loop of
    [getLastMessage] with what follows it, lines 208-231. *)
Fixpoint getLastMessageFrom (fuel : nat) (startTime : Z) : M string :=
  match fuel with
  | O => fun _ => OutOfFuel
  | S fuel' =>
      t <- dateNow ;;
      if t - startTime <? 3000 then
        messages <- getLastMessages 1 ;;
        let msg := Js.orElse (nth_error messages 0) "" in
        if isVirtualFisherResponse msg && (10 <? Z.of_nat (String.length msg))
        then ret msg
        else wait 0.1 ;;; getLastMessageFrom fuel' startTime
      else
        messages <- getLastMessages 1 ;;
        ret (Js.orElse (nth_error messages 0) "")
  end.

(** [getLastMessage()], lines 203-232. *)
Definition getLastMessage (fuel : nat) : M string :=
  startTime <- dateNow ;;
  getLastMessageFrom fuel startTime.

(** The decision of [determineNextAction] on the text it read,
    lines 95-113. *)
Definition nextActionFor (lastMsg : string) : string :=
  let msg := Js.toLowerCase lastMsg in
  if Js.includes msg "you ran out of" then "sell"
  else if Js.includes msg "you sold" then "buy"
  else if Js.includes msg "you bought" || Js.includes msg "bait purchase" then "fish"
  else "fish".

(** [determineNextAction()], lines 93-114. *)
Definition determineNextAction (fuel : nat) : M string :=
  lastMsg <- getLastMessage fuel ;;
  ret (nextActionFor lastMsg).

(** [sendCommand(command)], lines 310-316. *)
Definition sendCommand (command : string) : M unit :=
  emit (Fill command) ;;; emit (Press "Enter") ;;; emit (Press "Enter").

(** [sendCommandWithParams(command, params)], lines 321-328. *)
Definition sendCommandWithParams (command params : string) : M unit :=
  emit (Fill command) ;;; emit (Press "Enter") ;;;
  emit (PressSequentially params) ;;; emit (Press "Enter").

(** [executeAction(action)], lines 74-88. *)
Definition executeAction (action : string) : M unit :=
  if (action =? "fish")%string then sendCommand "/fish"
  else if (action =? "sell")%string then sendCommandWithParams "/sell" "all"
  else if (action =? "buy")%string then
    sendCommandWithParams "/buy" (baitType config ++ " 50")
  else throw (UnknownAction action).

(** The predicate handed to [messages.find]. *)
Definition isCaptchaMessage (m : string) : bool :=
  Js.includes (Js.toLowerCase m) "anti-bot".

(** The body of [detectCaptcha] after the messages were read,
    lines 126-137. *)
Definition captchaIn (messages : list string) : option Captcha :=
  let captchaMsg := find isCaptchaMessage messages in
  if Js.falsy captchaMsg then None
  else
    let fullMessage := Js.orElse captchaMsg "" in
    match Js.matchCode fullMessage with
    | Some answer => Some (TextCaptcha answer fullMessage)
    | None => Some (ImageCaptcha fullMessage)
    end.

(** [detectCaptcha()], lines 124-138. *)
Definition detectCaptcha : M (option Captcha) :=
  messages <- getLastMessages 2 ;;
  ret (captchaIn messages).

(** [handleCaptcha(captcha)], lines 143-167. *)
Definition handleCaptcha (captcha : Captcha) : M unit :=
  match captcha with
  | TextCaptcha answer _ =>
      sendCommandWithParams "/verify" answer ;;; wait 1
  | ImageCaptcha _ => throw ImageCaptchaError
  end.

(** The loop of [waitForMessagesSettled], lines 264-276, entered with the
    current [lastCount] and [lastChangeTime]. *)
Fixpoint settleFrom (fuel : nat) (settleMs timeoutMs startTime : Z)
         (lastCount lastChangeTime : Z) : M unit :=
  match fuel with
  | O => fun _ => OutOfFuel
  | S fuel' =>
      t <- dateNow ;;
      if t - startTime <? timeoutMs then
        wait 0.1 ;;;
        currentCount <- getMessageCount ;;
        st <- (if lastCount <? currentCount
               then t1 <- dateNow ;; ret (currentCount, t1)
               else ret (lastCount, lastChangeTime)) ;;
        t2 <- dateNow ;;
        if settleMs <=? t2 - snd st then ret tt
        else settleFrom fuel' settleMs timeoutMs startTime (fst st) (snd st)
      else ret tt
  end.

(** [waitForMessagesSettled(previousCount, settleMs, timeoutMs)],
    lines 259-279; [start] leaves the defaults 300 and 5000. *)
Definition waitForMessagesSettled (fuel : nat) (previousCount settleMs timeoutMs : Z)
  : M unit :=
  startTime <- dateNow ;;
  lastChangeTime <- dateNow ;;
  settleFrom fuel settleMs timeoutMs startTime previousCount lastChangeTime.

(** [waitForCooldown()], lines 284-294. *)
Definition waitForCooldown : M unit :=
  fun w =>
    if lastFishResponseTime w =? 0 then Ret tt w
    else
      let elapsed :=
        (Js.numberOfZ (now w) - Js.numberOfZ (lastFishResponseTime w))%float in
      let cooldownMs := (cooldown config * 1000)%float in
      let remaining := (cooldownMs - elapsed)%float in
      if (0 <? remaining)%float then wait (remaining / 1000)%float w
      else Ret tt w.

(** [this.lastFishResponseTime = Date.now()], line 40. *)
Definition recordFishResponse : M unit :=
  fun w => Ret tt (mkWorld (now w) (running w) (now w) (trace w)).

Definition setRunning (b : bool) : M unit :=
  fun w => Ret tt (mkWorld (now w) b (lastFishResponseTime w) (trace w)).

(** [stop()], lines 62-65. *)
Definition stop : M unit := setRunning false.

(** The first half of the loop body of [start], lines 26-36: the cooldown
    before a fish, the command, the wait for the messages to settle and
    the 0.3 s left to the page to render them. *)
Definition issueAndSettle (fuel : nat) (nextAction : string) : M unit :=
  (if (nextAction =? "fish")%string then waitForCooldown else ret tt) ;;;
  msgCountBefore <- getMessageCount ;;
  executeAction nextAction ;;;
  waitForMessagesSettled fuel msgCountBefore 300 5000 ;;;
  wait 0.3.

(** The second half, lines 44-50: the captcha check, then the decision. *)
Definition interpretResponse (fuel : nat) : M string :=
  captcha <- detectCaptcha ;;
  match captcha with
  | Some c => handleCaptcha c
  | None => ret tt
  end ;;;
  determineNextAction fuel.

(** One pass through the body of the [while] loop of [start]; its value
    is the new [nextAction].  Between the two halves the response time of
    a fish is recorded.  The [catch] clause logs and rethrows. *)
Definition cycle (fuel : nat) (nextAction : string) : M string :=
  tryCatch
    (issueAndSettle fuel nextAction ;;;
     (if (nextAction =? "fish")%string then recordFishResponse else ret tt) ;;;
     interpretResponse fuel)
    (fun err => throw err).

(** [while (this.running) { ... }], cut off after [cycles] passes. *)
Fixpoint mainLoop (cycles fuel : nat) (nextAction : string) : M unit :=
  match cycles with
  | O => fun _ => OutOfFuel
  | S cycles' =>
      fun w =>
        if running w then
          (nextAction' <- cycle fuel nextAction ;;
           mainLoop cycles' fuel nextAction') w
        else Ret tt w
  end.

(** [start()], lines 17-57. *)
Definition start (cycles fuel : nat) : M unit :=
  setRunning true ;;; mainLoop cycles fuel "fish".

End Fisher.

(** ** The earlier revision

    src/fisher.js also holds an earlier revision of the class (from line
    337 on).  Its [getLastMessage] reads the page once and does not poll;
    the decision taken on the text is the same. *)

Module Earlier.

(** [getLastMessage()], lines 499-502. *)
Definition getLastMessage (page : Page) : M string :=
  messages <- getLastMessages page 1 ;;
  ret (Js.orElse (nth_error messages 0) "").

(** [determineNextAction()], lines 422-443. *)
Definition determineNextAction (page : Page) : M string :=
  lastMsg <- getLastMessage page ;;
  ret (nextActionFor lastMsg).

End Earlier.

(** The state the constructor leaves (lines 7-12), at clock time [clock]:
    not running, no fish response yet, nothing asked of the page. *)
Definition newFisher (clock : Z) : World := mkWorld clock false 0 [].

(** * Vocabulary of the statements *)

(** ** Entries and counts *)

(** The text [getLastMessages] pushes for one element. *)
Definition textOf (e : option string) : string :=
  match e with
  | Some text => text
  | None => ""
  end.

(** The texts of the [n] most recent elements, oldest first. *)
Definition recent (n : nat) (elements : list (option string)) : list string :=
  map textOf (skipn (List.length elements - n) elements).

(** The text of the most recent element, [""] on an empty list. *)
Definition lastText (elements : list (option string)) : string :=
  textOf (last elements None).

(** The number of message elements on the page at time [t]. *)
Definition countAt (page : Page) (t : Z) : Z :=
  Z.of_nat (List.length (timeline page t)).

(** ** Characters *)

(** All characters of [s] satisfy [f]. *)
Fixpoint allChars (f : ascii -> bool) (s : string) : bool :=
  match s with
  | EmptyString => true
  | String c s' => f c && allChars f s'
  end.

(** [s] is empty or begins with a blank: a run of non-blanks ends here. *)
Definition endsRun (s : string) : bool :=
  match s with
  | EmptyString => true
  | String c _ => Js.isSpace c
  end.

(** ** Outcomes and frames *)

(** The three values of [nextAction] that [executeAction] knows. *)
Definition enumerated (action : string) : Prop :=
  action = "fish" \/ action = "sell" \/ action = "buy".

(** [post m w Q E]: run from [w], [m] returns in a world satisfying [Q] or
    throws in one satisfying [E]. *)
Definition post {A} (m : M A) (w : World)
           (Q : A -> World -> Prop) (E : Error -> World -> Prop) : Prop :=
  match m w with
  | Ret a w' => Q a w'
  | Throw e w' => E e w'
  | OutOfFuel => True
  end.

(** What every method except the two setters leaves alone: the two fields
    of the object stay, the clock does not go back, the trace only grows. *)
Definition frame (w w' : World) : Prop :=
  running w' = running w /\
  lastFishResponseTime w' = lastFishResponseTime w /\
  now w <= now w' /\
  exists events, trace w' = trace w ++ events.

(** [framed P m]: whatever [m] does, it ends in a world that frames the
    one it started in, and an error it throws satisfies [P]. *)
Definition framed {A} (P : Error -> Prop) (m : M A) : Prop :=
  forall w, post m w (fun _ w' => frame w w') (fun e w' => frame w w' /\ P e).

(** [ends m]: [m] is not cut off by the fuel, it returns or throws. *)
Definition ends {A} (m : M A) : Prop := forall w, m w <> OutOfFuel.

(** ** Keys and timers *)

(** A call on the text box, as opposed to a timer. *)
Definition isKey (e : Event) : bool :=
  match e with
  | WaitForTimeout _ => false
  | _ => true
  end.

(** The calls on the text box among some events, in order. *)
Definition keys (events : list Event) : list Event := filter isKey events.

(** [typed l w w']: from [w] to [w'] the trace has only grown, and the
    calls on the text box among the new events are exactly [l]. *)
Definition typed (l : list Event) (w w' : World) : Prop :=
  exists events, trace w' = trace w ++ events /\ keys events = l.

(** [sends l m]: [m] never throws, and what it types is exactly [l]. *)
Definition sends {A} (l : list Event) (m : M A) : Prop :=
  forall w, post m w (fun _ w' => typed l w w') (fun _ _ => False).

(** What [executeAction] types for each of the three actions. *)
Definition commandKeys (config : Config) (action : string) : list Event :=
  if (action =? "fish")%string then
    [Fill "/fish"; Press "Enter"; Press "Enter"]
  else if (action =? "sell")%string then
    [Fill "/sell"; Press "Enter"; PressSequentially "all"; Press "Enter"]
  else
    [Fill "/buy"; Press "Enter";
     PressSequentially (baitType config ++ " 50"); Press "Enter"].

(** What [handleCaptcha] types for a text captcha. *)
Definition verifyKeys (answer : string) : list Event :=
  [Fill "/verify"; Press "Enter"; PressSequentially answer; Press "Enter"].

(** The test on which [getLastMessage] stops polling. *)
Definition looksReady (msg : string) : bool :=
  isVirtualFisherResponse msg && (10 <? Z.of_nat (String.length msg)).

(** ** Timers for whole milliseconds *)


(** ** Pages, configurations and worlds used as examples *)

(** A page whose message list never changes and whose timers are exact. *)
Definition staticPage (elements : list (option string)) : Page :=
  mkPage (fun _ => elements) (fun _ => 0%N).

(** The defaults of the launcher: [FISH_COOLDOWN] 3.5 and [BAIT_TYPE] worms. *)
Definition defaultConfig : Config := mkConfig 3.5 "worms".

(** A freshly constructed [Fisher] at clock time 1000. *)
Definition freshWorld : World := mkWorld 1000 false 0 [].

(** A page on which the reply appears 50 ms after the command. *)
Definition replyAfter50 : Page :=
  mkPage (fun t => if t <? 1050 then [] else [Some "You caught a cod!"])
         (fun _ => 0%N).

(** The world in which the image captcha of the witness is detected. *)
Definition imageCaptchaWorld : World :=
  Eval vm_compute in
    match (issueAndSettle (staticPage [Some "Anti-bot check: solve the image"])
                          defaultConfig 60 "fish" ;;; recordFishResponse)
            (mkWorld 1000 true 0 []) with
    | Ret _ w1 => w1
    | _ => freshWorld
    end.


(** * Facts *)

(** ** Strings *)

Module JsFacts.
Import Js.
Local Open Scope string_scope.

Lemma append_empty_r (s : string) : s ++ "" = s.
Proof. induction s as [|c s IH]; simpl; [reflexivity | now rewrite IH]. Qed.

Lemma append_assoc (a b c : string) : (a ++ b) ++ c = a ++ (b ++ c).
Proof. induction a as [|x a IH]; simpl; [reflexivity | now rewrite IH]. Qed.

Lemma length_append (a b : string) :
  String.length (a ++ b) = (String.length a + String.length b)%nat.
Proof. induction a as [|x a IH]; simpl; [reflexivity | now rewrite IH]. Qed.

Lemma toLowerCase_append (a b : string) :
  toLowerCase (a ++ b) = toLowerCase a ++ toLowerCase b.
Proof. induction a as [|x a IH]; simpl; [reflexivity | now rewrite IH]. Qed.

Lemma length_toLowerCase (s : string) :
  String.length (toLowerCase s) = String.length s.
Proof. induction s as [|c s IH]; simpl; [reflexivity | now rewrite IH]. Qed.

Lemma startsWith_append (p s : string) : startsWith (p ++ s) p = true.
Proof.
  induction p as [|c p IH]; simpl; [reflexivity |].
  now rewrite Ascii.eqb_refl, IH.
Qed.

Lemma startsWith_split (s p : string) :
  startsWith s p = true -> exists b, s = p ++ b.
Proof.
  revert s; induction p as [|c p IH]; intros s H; simpl in *.
  - now exists s.
  - destruct s as [|d s]; [discriminate |].
    apply andb_true_iff in H as [Hc Hp].
    apply Ascii.eqb_eq in Hc; subst d.
    destruct (IH s Hp) as [b ->]. now exists b.
Qed.

Lemma includes_here (s t : string) :
  startsWith s t = true -> includes s t = true.
Proof. intros H. destruct s; simpl; now rewrite H. Qed.

(** [includes] is the substring relation. *)
Lemma includes_iff (s t : string) :
  includes s t = true <-> exists a b, s = a ++ t ++ b.
Proof.
  split.
  - induction s as [|c s IH]; simpl; intros H.
    + rewrite orb_false_r in H.
      destruct (startsWith_split _ _ H) as [b Hb]. now exists "", b.
    + apply orb_true_iff in H as [H | H].
      * destruct (startsWith_split _ _ H) as [b Hb]. now exists "", b.
      * destruct (IH H) as (a & b & ->). now exists (String c a), b.
  - intros (a & b & ->). induction a as [|c a IH]; simpl.
    + apply includes_here, startsWith_append.
    + rewrite IH. apply orb_true_r.
Qed.

(** A prefix test only looks at the first [length p] characters. *)
Lemma startsWith_cut (u v p : string) :
  (String.length p <= String.length u)%nat ->
  startsWith (u ++ v) p = startsWith u p.
Proof.
  revert u; induction p as [|c p IH]; intros u Hlen; simpl.
  - reflexivity.
  - destruct u as [|d u]; simpl in *; [lia |].
    rewrite IH by lia. reflexivity.
Qed.

Lemma stripLiteralCI_lower (p s r : string) :
  stripLiteralCI p s = Some r ->
  startsWith (toLowerCase s) (toLowerCase p) = true.
Proof.
  revert s; induction p as [|a p IH]; intros s H; simpl in *.
  - reflexivity.
  - destruct s as [|b s]; [discriminate |]. simpl.
    destruct (Ascii.eqb (lowerChar a) (lowerChar b)) eqn:E; [| discriminate].
    now rewrite (IH _ H).
Qed.

Lemma stripLiteralCI_label (p label x : string) :
  toLowerCase label = toLowerCase p ->
  stripLiteralCI p (label ++ x) = Some x.
Proof.
  revert label; induction p as [|a p IH]; intros label H; simpl in *.
  - destruct label; [reflexivity | discriminate].
  - destruct label as [|b label]; [discriminate |]. simpl in *.
    injection H as Hb Hl. rewrite Hb, Ascii.eqb_refl. now apply IH.
Qed.

Lemma skipSpaces_blanks (ws s : string) :
  allChars isSpace ws = true -> endsRun s = false ->
  skipSpaces (ws ++ s) = s.
Proof.
  intros Hws Hs. induction ws as [|c ws IH]; simpl in *.
  - destruct s as [|d s]; [discriminate |]. simpl in *. now rewrite Hs.
  - apply andb_true_iff in Hws as [Hc Hws]. rewrite Hc. now apply IH.
Qed.

Lemma takeNonSpaces_run (g rest : string) :
  allChars (fun c => negb (isSpace c)) g = true -> endsRun rest = true ->
  takeNonSpaces (g ++ rest) = g.
Proof.
  intros Hg Hrest. induction g as [|c g IH]; simpl in *.
  - destruct rest as [|d rest]; [reflexivity |]. simpl in *. now rewrite Hrest.
  - apply andb_true_iff in Hg as [Hc Hg].
    apply negb_true_iff in Hc. rewrite Hc. now rewrite IH.
Qed.

(** No match without the label. *)
Lemma matchCode_needs_label (s g : string) :
  matchCode s = Some g -> includes (toLowerCase s) "code:" = true.
Proof.
  induction s as [|c s IH]; intros H.
  - discriminate.
  - cbn [matchCode] in H.
    destruct (matchCodeAt (String c s)) eqn:E.
    + unfold matchCodeAt in E.
      destruct (stripLiteralCI "Code:" (String c s)) as [r|] eqn:Er; [| discriminate].
      apply stripLiteralCI_lower in Er.
      change (toLowerCase "Code:") with "code:" in Er.
      now apply includes_here.
    + cbn [toLowerCase includes]. rewrite (IH H). apply orb_true_r.
Qed.

Lemma matchCode_absent (s : string) :
  includes (toLowerCase s) "code:" = false -> matchCode s = None.
Proof.
  intros H. destruct (matchCode s) as [g|] eqn:E; [| reflexivity].
  apply matchCode_needs_label in E. congruence.
Qed.

(** The match at the label: blanks are skipped and the run is captured. *)
Lemma matchCodeAt_label (label ws g rest : string) :
  toLowerCase label = "code:" ->
  allChars isSpace ws = true ->
  g <> "" -> allChars (fun c => negb (isSpace c)) g = true ->
  endsRun rest = true ->
  matchCodeAt (label ++ ws ++ g ++ rest) = Some g.
Proof.
  intros Hl Hws Hne Hg Hrest. unfold matchCodeAt.
  rewrite (stripLiteralCI_label "Code:" label) by exact Hl.
  rewrite skipSpaces_blanks; [| exact Hws |].
  - rewrite takeNonSpaces_run by assumption.
    destruct g; [congruence | reflexivity].
  - destruct g as [|c g]; [congruence |]. simpl in *.
    apply andb_true_iff in Hg as [Hc _]. now apply negb_true_iff in Hc.
Qed.

(** The leftmost label decides: text before it that holds no earlier
    occurrence of the label is passed over. *)
Lemma matchCode_leftmost (pre label ws g rest : string) :
  includes (toLowerCase pre ++ "code") "code:" = false ->
  toLowerCase label = "code:" ->
  allChars isSpace ws = true ->
  g <> "" -> allChars (fun c => negb (isSpace c)) g = true ->
  endsRun rest = true ->
  matchCode (pre ++ label ++ ws ++ g ++ rest) = Some g.
Proof.
  intros Hpre Hl Hws Hne Hg Hrest.
  induction pre as [|c pre IH].
  - cbn [append].
    pose proof (matchCodeAt_label label ws g rest Hl Hws Hne Hg Hrest) as E.
    destruct (label ++ ws ++ g ++ rest); cbn [matchCode]; now rewrite E.
  - cbn [toLowerCase append includes] in Hpre.
    apply orb_false_iff in Hpre as [Hhere Hlater].
    cbn [append matchCode].
    destruct (matchCodeAt (String c (pre ++ label ++ ws ++ g ++ rest))) eqn:E.
    + exfalso. unfold matchCodeAt in E.
      destruct (stripLiteralCI "Code:" (String c (pre ++ label ++ ws ++ g ++ rest)))
        as [r|] eqn:Er; [| discriminate].
      apply stripLiteralCI_lower in Er.
      change (toLowerCase "Code:") with "code:" in Er.
      change (String c (pre ++ label ++ ws ++ g ++ rest))
        with (String c pre ++ label ++ ws ++ g ++ rest) in Er.
      rewrite !toLowerCase_append, Hl in Er.
      change "code:" with ("code" ++ ":") in Er at 1.
      rewrite append_assoc, <- append_assoc in Er.
      rewrite startsWith_cut in Er.
      * cbn [toLowerCase append] in Er. congruence.
      * rewrite length_append, length_toLowerCase. simpl. lia.
    + now apply IH.
Qed.

End JsFacts.

(** ** Reading the page *)

Lemma textContentOr_seq (elements : list (option string)) (s : nat) :
  map (textContentOr elements) (seq s (List.length elements - s)) =
  map textOf (skipn s elements).
Proof.
  revert s; induction elements as [|x l IH]; intros s.
  - destruct s; reflexivity.
  - destruct s as [|s].
    + cbn [List.length Nat.sub seq map skipn]. f_equal.
      rewrite <- seq_shift, map_map.
      specialize (IH 0%nat). rewrite Nat.sub_0_r in IH. exact IH.
    + cbn [List.length Nat.sub skipn].
      rewrite <- seq_shift, map_map. apply IH.
Qed.

Lemma orElse_self (s : string) : Js.orElse (Some s) "" = s.
Proof. now destruct s. Qed.

Lemma head_recent_1 (elements : list (option string)) :
  Js.orElse (nth_error (recent 1 elements) 0) "" = lastText elements.
Proof.
  unfold recent, lastText.
  induction elements as [|x l IH]; [reflexivity |].
  destruct l as [|y l].
  - cbn. apply orElse_self.
  - replace (List.length (x :: y :: l) - 1)%nat
      with (S (List.length (y :: l) - 1)) by (cbn [List.length]; lia).
    cbn [skipn]. rewrite IH. reflexivity.
Qed.

Section PageFacts.

Variable page : Page.

Lemma getLastMessages_recent (n : Z) (w : World) :
  0 <= n ->
  getLastMessages page n w = Ret (recent (Z.to_nat n) (timeline page (now w))) w.
Proof.
  intros Hn. unfold getLastMessages, recent. f_equal.
  set (l := timeline page (now w)).
  replace (Z.to_nat (Z.max 0 (Z.of_nat (List.length l) - n)))
    with (List.length l - Z.to_nat n)%nat by lia.
  replace (Z.to_nat (Z.of_nat (List.length l) - Z.max 0 (Z.of_nat (List.length l) - n)))
    with (List.length l - (List.length l - Z.to_nat n))%nat by lia.
  apply textContentOr_seq.
Qed.

Lemma wait_tenth (w : World) :
  wait page 0.1 w =
  Ret tt (mkWorld (now w + 100 + Z.of_N (jitter page (now w)))
                  (running w) (lastFishResponseTime w)
                  (trace w ++ [WaitForTimeout (0.1 * 1000)%float])).
Proof. reflexivity. Qed.

End PageFacts.

(** ** Outcomes and frames: rules *)

Lemma post_ret {A} (a : A) w (Q : A -> World -> Prop) E :
  Q a w -> post (ret a) w Q E.
Proof. exact (fun H => H). Qed.

Lemma post_throw {A} e w (Q : A -> World -> Prop) (E : Error -> World -> Prop) :
  E e w -> post (@throw A e) w Q E.
Proof. exact (fun H => H). Qed.

Lemma post_bind {A B} (m : M A) (k : A -> M B) w Q E :
  post m w (fun a w' => post (k a) w' Q E) E -> post (bind m k) w Q E.
Proof. unfold post, bind. destruct (m w); auto. Qed.

Lemma post_weaken {A} (m : M A) w (Q Q' : A -> World -> Prop)
      (E E' : Error -> World -> Prop) :
  post m w Q E ->
  (forall a w', Q a w' -> Q' a w') -> (forall e w', E e w' -> E' e w') ->
  post m w Q' E'.
Proof. unfold post. destruct (m w); auto. Qed.

Lemma frame_refl w : frame w w.
Proof.
  repeat split; try lia. exists []. now rewrite app_nil_r.
Qed.

Lemma frame_trans w1 w2 w3 : frame w1 w2 -> frame w2 w3 -> frame w1 w3.
Proof.
  intros (R1 & L1 & N1 & e1 & T1) (R2 & L2 & N2 & e2 & T2).
  repeat split; try congruence; try lia.
  exists (e1 ++ e2). now rewrite T2, T1, app_assoc.
Qed.

Lemma framed_ret {A} P (a : A) : framed P (ret a).
Proof. intros w. apply frame_refl. Qed.

Lemma framed_throw {A} (P : Error -> Prop) e : P e -> framed P (@throw A e).
Proof. intros He w. split; [apply frame_refl | exact He]. Qed.

Lemma framed_bind {A B} P (m : M A) (k : A -> M B) :
  framed P m -> (forall a, framed P (k a)) -> framed P (bind m k).
Proof.
  intros Hm Hk w. apply post_bind.
  eapply post_weaken; [apply Hm | |]; cbn beta.
  - intros a w' F. eapply post_weaken; [apply Hk | |]; cbn beta.
    + intros; eapply frame_trans; eauto.
    + intros e w'' [F' He]. split; [eapply frame_trans; eauto | exact He].
  - auto.
Qed.

(** A [catch] clause that rethrows changes nothing. *)
Lemma tryCatch_rethrow {A} (body : M A) w :
  tryCatch body (fun err => throw err) w = body w.
Proof. unfold tryCatch, throw. now destruct (body w). Qed.

Lemma framed_dateNow P : framed P dateNow.
Proof. intros w. apply frame_refl. Qed.

Lemma framed_emit P e : framed P (emit e).
Proof.
  intros w. unfold post, emit, frame; cbn. repeat split; try lia. now exists [e].
Qed.

Create HintDb framed.
#[local] Hint Resolve framed_ret framed_dateNow framed_emit : framed.

Ltac framed_step :=
  first [ apply framed_bind; [| intros ?] | solve [auto with framed] ].

Lemma timerDelay_pos ms : 1 <= timerDelay ms.
Proof. unfold timerDelay. destruct (_ && _)%bool; lia. Qed.

Section Frames.

Variable page : Page.
Variable config : Config.
Variable P : Error -> Prop.

Lemma framed_waitForTimeout ms : framed P (waitForTimeout page ms).
Proof.
  intros w. unfold post, waitForTimeout, frame; cbn [now running lastFishResponseTime trace].
  pose proof (timerDelay_pos ms).
  repeat split; try lia. now exists [WaitForTimeout ms].
Qed.

Lemma framed_wait s : framed P (wait page s).
Proof. apply framed_waitForTimeout. Qed.

Lemma framed_getMessageCount : framed P (getMessageCount page).
Proof. intros w. apply frame_refl. Qed.

Lemma framed_getLastMessages n : framed P (getLastMessages page n).
Proof. intros w. apply frame_refl. Qed.

Hint Resolve framed_wait framed_getMessageCount framed_getLastMessages : framed.

Lemma framed_getLastMessageFrom fuel startTime :
  framed P (getLastMessageFrom page fuel startTime).
Proof.
  induction fuel as [|fuel IH]; [intros w; exact I |].
  cbn [getLastMessageFrom].
  apply framed_bind; [auto with framed | intros t].
  destruct (t - startTime <? 3000).
  - apply framed_bind; [auto with framed | intros messages].
    match goal with |- framed _ (if ?c then _ else _) => destruct c end.
    + auto with framed.
    + apply framed_bind; [auto with framed | intros _; exact IH].
  - apply framed_bind; [auto with framed | intros messages; auto with framed].
Qed.

Lemma framed_determineNextAction fuel : framed P (determineNextAction page fuel).
Proof.
  unfold determineNextAction, getLastMessage.
  apply framed_bind; [| auto with framed].
  apply framed_bind; [auto with framed |].
  intros t. apply framed_getLastMessageFrom.
Qed.

Lemma framed_sendCommand c : framed P (sendCommand c).
Proof. unfold sendCommand. repeat framed_step. Qed.

Lemma framed_sendCommandWithParams c p : framed P (sendCommandWithParams c p).
Proof. unfold sendCommandWithParams. repeat framed_step. Qed.

Hint Resolve framed_sendCommand framed_sendCommandWithParams : framed.

Lemma framed_executeAction action :
  P (UnknownAction action) -> framed P (executeAction config action).
Proof.
  intros Hp. unfold executeAction.
  destruct (action =? "fish")%string; [auto with framed |].
  destruct (action =? "sell")%string; [auto with framed |].
  destruct (action =? "buy")%string; [auto with framed |].
  now apply framed_throw.
Qed.

Lemma framed_detectCaptcha : framed P (detectCaptcha page).
Proof. unfold detectCaptcha. repeat framed_step. Qed.

Lemma framed_handleCaptcha c :
  P ImageCaptchaError -> framed P (handleCaptcha page c).
Proof.
  intros Hp. destruct c; cbn [handleCaptcha].
  - repeat framed_step.
  - now apply framed_throw.
Qed.

Lemma framed_settleFrom fuel settleMs timeoutMs startTime lastCount lastChangeTime :
  framed P (settleFrom page fuel settleMs timeoutMs startTime lastCount lastChangeTime).
Proof.
  revert lastCount lastChangeTime.
  induction fuel as [|fuel IH]; intros lastCount lastChangeTime; [intros w; exact I |].
  cbn [settleFrom].
  apply framed_bind; [auto with framed | intros t].
  destruct (t - startTime <? timeoutMs); [| auto with framed].
  apply framed_bind; [auto with framed | intros _].
  apply framed_bind; [auto with framed | intros currentCount].
  apply framed_bind.
  - destruct (lastCount <? currentCount); repeat framed_step.
  - intros st. apply framed_bind; [auto with framed | intros t2].
    destruct (settleMs <=? t2 - snd st); [auto with framed | apply IH].
Qed.

Lemma framed_waitForMessagesSettled fuel previousCount settleMs timeoutMs :
  framed P (waitForMessagesSettled page fuel previousCount settleMs timeoutMs).
Proof.
  unfold waitForMessagesSettled.
  apply framed_bind; [auto with framed | intros t0].
  apply framed_bind; [auto with framed | intros t1].
  apply framed_settleFrom.
Qed.

Lemma framed_waitForCooldown : framed P (waitForCooldown page config).
Proof.
  intros w. unfold post, waitForCooldown.
  destruct (lastFishResponseTime w =? 0); [apply frame_refl |].
  match goal with |- context [if ?c then _ else _] => destruct c end.
  - apply framed_wait.
  - apply frame_refl.
Qed.

End Frames.

(** ** The two polling loops return *)

Section Loops.

Variable page : Page.

(** With a unit of fuel for every 100 ms left of its three seconds, and
    one more, [getLastMessage]'s loop returns the text of the most recent
    element as it is when the loop returns. *)
Lemma getLastMessageFrom_returns fuel startTime w :
  (0 < fuel)%nat ->
  3000 - (now w - startTime) <= 100 * (Z.of_nat fuel - 1) ->
  exists w',
    getLastMessageFrom page fuel startTime w =
      Ret (lastText (timeline page (now w'))) w' /\
    frame w w'.
Proof.
  revert w; induction fuel as [|fuel IH]; intros w Hpos Hfuel; [lia |].
  cbn [getLastMessageFrom]. unfold bind at 1. cbn [dateNow].
  destruct (now w - startTime <? 3000) eqn:Et.
  - unfold bind at 1. rewrite getLastMessages_recent by lia.
    change (Z.to_nat 1) with 1%nat. rewrite head_recent_1.
    match goal with |- context [if ?c then _ else _] => destruct c end.
    + exists w. split; [reflexivity | apply frame_refl].
    + unfold bind at 1. rewrite wait_tenth.
      apply Z.ltb_lt in Et.
      match goal with |- context [getLastMessageFrom _ _ _ ?w1] =>
        destruct (IH w1) as (w' & Hrun & Hframe); [lia | cbn [now]; lia |]
      end.
      exists w'. split; [exact Hrun |].
      eapply frame_trans; [| exact Hframe].
      pose proof (framed_wait page (fun _ => True) 0.1 w) as F. unfold post in F.
      rewrite wait_tenth in F. exact F.
  - unfold bind at 1. rewrite getLastMessages_recent by lia.
    change (Z.to_nat 1) with 1%nat. rewrite head_recent_1.
    exists w. split; [reflexivity | apply frame_refl].
Qed.

Lemma getLastMessage_returns k w :
  exists w',
    getLastMessage page (31 + k) w = Ret (lastText (timeline page (now w'))) w' /\
    frame w w'.
Proof.
  unfold getLastMessage, bind. cbn [dateNow].
  apply getLastMessageFrom_returns; lia.
Qed.

Lemma determineNextAction_returns k w :
  exists w',
    determineNextAction page (31 + k) w =
      Ret (nextActionFor (lastText (timeline page (now w')))) w' /\
    frame w w'.
Proof.
  destruct (getLastMessage_returns k w) as (w' & Hrun & Hframe).
  exists w'. split; [| exact Hframe].
  unfold determineNextAction, bind. now rewrite Hrun.
Qed.

(** [waitForMessagesSettled]'s loop returns, and never by an error. *)
Lemma settleFrom_returns fuel settleMs timeoutMs startTime lastCount lastChangeTime w :
  (0 < fuel)%nat ->
  timeoutMs - (now w - startTime) <= 100 * (Z.of_nat fuel - 1) ->
  exists w',
    settleFrom page fuel settleMs timeoutMs startTime lastCount lastChangeTime w =
      Ret tt w'.
Proof.
  revert w lastCount lastChangeTime.
  induction fuel as [|fuel IH]; intros w lastCount lastChangeTime Hpos Hfuel; [lia |].
  cbn [settleFrom]. unfold bind at 1. cbn [dateNow].
  destruct (now w - startTime <? timeoutMs) eqn:Et; [| now exists w].
  apply Z.ltb_lt in Et.
  unfold bind at 1. rewrite wait_tenth.
  match goal with |- context [mkWorld ?a ?b ?c ?d] =>
    remember (mkWorld a b c d) as w1 eqn:Ew1
  end.
  assert (Hnow : now w + 100 <= now w1) by (subst w1; cbn [now]; lia).
  clear Ew1.
  unfold bind at 1. unfold getMessageCount at 1.
  fold (countAt page (now w1)).
  unfold bind at 1.
  destruct (lastCount <? countAt page (now w1)).
  - unfold bind at 1. cbn [dateNow]. unfold ret at 1.
    unfold bind at 1. cbn [dateNow fst snd].
    destruct (settleMs <=? now w1 - now w1); [now exists w1 |].
    apply IH; lia.
  - unfold ret at 1. unfold bind at 1. cbn [dateNow fst snd].
    destruct (settleMs <=? now w1 - lastChangeTime); [now exists w1 |].
    apply IH; lia.
Qed.

Lemma waitForMessagesSettled_returns k previousCount settleMs timeoutMs w :
  exists w',
    waitForMessagesSettled page (Z.to_nat (timeoutMs / 100) + 2 + k)
                           previousCount settleMs timeoutMs w = Ret tt w' /\
    frame w w'.
Proof.
  unfold waitForMessagesSettled. unfold bind at 1 2. cbn [dateNow].
  destruct (settleFrom_returns (Z.to_nat (timeoutMs / 100) + 2 + k)
              settleMs timeoutMs (now w) previousCount (now w) w) as (w' & Hrun).
  - lia.
  - assert (timeoutMs <= 100 * (timeoutMs / 100) + 100)
      by (pose proof (Z.mod_pos_bound timeoutMs 100);
          pose proof (Z.div_mod timeoutMs 100); lia).
    lia.
  - exists w'. split; [exact Hrun |].
    pose proof (framed_settleFrom page (fun _ => True)
                  (Z.to_nat (timeoutMs / 100) + 2 + k)
                  settleMs timeoutMs (now w) previousCount (now w) w) as F.
    unfold post in F. now rewrite Hrun in F.
Qed.

(** *** The quiet window *)

Section Quiet.

Hypothesis count_monotone :
  forall t1 t2, t1 <= t2 -> countAt page t1 <= countAt page t2.

(** When the loop returns it has either seen the count stand still
    over a window of at least [settleMs], or the hard timeout is over. *)
Lemma settleFrom_quiet fuel settleMs timeoutMs startTime lastCount lastChangeTime w w' :
  startTime <= lastChangeTime <= now w ->
  lastCount <= countAt page lastChangeTime ->
  settleFrom page fuel settleMs timeoutMs startTime lastCount lastChangeTime w =
    Ret tt w' ->
  (exists t0, startTime <= t0 <= now w' /\ settleMs <= now w' - t0 /\
              forall t, t0 <= t <= now w' -> countAt page t = countAt page t0) \/
  timeoutMs <= now w' - startTime.
Proof.
  revert w lastCount lastChangeTime.
  induction fuel as [|fuel IH]; intros w lastCount lastChangeTime Htime Hcount;
    [discriminate |].
  cbn [settleFrom]. unfold bind at 1. cbn [dateNow].
  destruct (now w - startTime <? timeoutMs) eqn:Et.
  2:{ intros [= <-]. right. apply Z.ltb_ge in Et. lia. }
  unfold bind at 1. rewrite wait_tenth.
  match goal with |- context [mkWorld ?a ?b ?c ?d] =>
    remember (mkWorld a b c d) as w1 eqn:Ew1
  end.
  assert (Hnow : now w <= now w1) by (subst w1; cbn [now]; lia).
  clear Ew1.
  unfold bind at 1. unfold getMessageCount at 1.
  fold (countAt page (now w1)).
  unfold bind at 1.
  destruct (lastCount <? countAt page (now w1)) eqn:Egrow.
  - unfold bind at 1. cbn [dateNow]. unfold ret at 1.
    unfold bind at 1. cbn [dateNow fst snd].
    destruct (settleMs <=? now w1 - now w1) eqn:Es.
    + intros [= <-]. left. exists (now w1). apply Z.leb_le in Es.
      repeat split; try lia. intros t Ht. f_equal. lia.
    + apply IH; lia.
  - unfold ret at 1. unfold bind at 1. cbn [dateNow fst snd].
    apply Z.ltb_ge in Egrow.
    destruct (settleMs <=? now w1 - lastChangeTime) eqn:Es.
    + intros [= <-]. left. exists lastChangeTime. apply Z.leb_le in Es.
      repeat split; try lia. intros t Ht.
      pose proof (count_monotone lastChangeTime t).
      pose proof (count_monotone t (now w1)). lia.
    + apply IH; lia.
Qed.

End Quiet.

End Loops.

(** ** One cycle of the main loop *)

Lemma nextActionFor_enumerated lastMsg : enumerated (nextActionFor lastMsg).
Proof.
  unfold nextActionFor, enumerated.
  repeat match goal with |- context [if ?c then _ else _] => destruct c end; auto.
Qed.

Section Cycle.

Variable page : Page.
Variable config : Config.

Lemma cycle_body fuel action w :
  cycle page config fuel action w =
  (issueAndSettle page config fuel action ;;;
   (if (action =? "fish")%string then recordFishResponse else ret tt) ;;;
   interpretResponse page fuel) w.
Proof. unfold cycle. now rewrite tryCatch_rethrow. Qed.

Lemma framed_issueAndSettle (P : Error -> Prop) fuel action :
  P (UnknownAction action) -> framed P (issueAndSettle page config fuel action).
Proof.
  intros Hp. unfold issueAndSettle.
  apply framed_bind.
  { destruct (action =? "fish")%string;
      [apply framed_waitForCooldown | apply framed_ret]. }
  intros _. apply framed_bind; [apply framed_getMessageCount | intros n].
  apply framed_bind; [now apply framed_executeAction | intros _].
  apply framed_bind; [apply framed_waitForMessagesSettled | intros _].
  apply framed_wait.
Qed.

Lemma framed_interpretResponse (P : Error -> Prop) fuel :
  P ImageCaptchaError -> framed P (interpretResponse page fuel).
Proof.
  intros Hp. unfold interpretResponse.
  apply framed_bind; [apply framed_detectCaptcha | intros captcha].
  apply framed_bind; [| intros _; apply framed_determineNextAction].
  destruct captcha; [now apply framed_handleCaptcha | apply framed_ret].
Qed.

Lemma issueAndSettle_enumerated (P : Error -> Prop) fuel action :
  enumerated action -> framed P (issueAndSettle page config fuel action).
Proof.
  intros Ha. unfold issueAndSettle.
  apply framed_bind.
  { destruct (action =? "fish")%string;
      [apply framed_waitForCooldown | apply framed_ret]. }
  intros _. apply framed_bind; [apply framed_getMessageCount | intros n].
  apply framed_bind; [| intros _].
  { destruct Ha as [-> | [-> | ->]]; unfold executeAction;
      cbn [String.eqb Ascii.eqb Bool.eqb];
      first [apply framed_sendCommand | apply framed_sendCommandWithParams]. }
  apply framed_bind; [apply framed_waitForMessagesSettled | intros _].
  apply framed_wait.
Qed.

(** What [determineNextAction] returns is one of the three actions, and
    it throws nothing. *)
Lemma determineNextAction_enumerated fuel w :
  post (determineNextAction page fuel) w
       (fun a _ => enumerated a) (fun _ _ => False).
Proof.
  unfold determineNextAction. apply post_bind.
  pose proof (framed_getLastMessageFrom page (fun _ => False) fuel (now w) w) as F.
  unfold getLastMessage, post, bind in *. cbn [dateNow].
  destruct (getLastMessageFrom page fuel (now w) w); try tauto.
  apply nextActionFor_enumerated.
Qed.

(** A step that is framed passes its error bound on. *)
Lemma post_after_framed {A B} (P : Error -> Prop) (m : M A) (k : A -> M B) w Q :
  framed P m ->
  (forall a w', frame w w' -> post (k a) w' Q (fun e _ => P e)) ->
  post (bind m k) w Q (fun e _ => P e).
Proof.
  intros Hm Hk. apply post_bind.
  eapply post_weaken; [apply Hm | |]; cbn beta; [auto | tauto].
Qed.

Lemma interpretResponse_outcome fuel w :
  post (interpretResponse page fuel) w
       (fun a _ => enumerated a) (fun e _ => e = ImageCaptchaError).
Proof.
  unfold interpretResponse.
  apply post_after_framed; [apply framed_detectCaptcha | intros captcha w1 _].
  apply post_after_framed.
  - destruct captcha; [now apply framed_handleCaptcha | apply framed_ret].
  - intros _ w2 _. eapply post_weaken; [apply determineNextAction_enumerated | |];
      cbn beta; tauto.
Qed.

(** A cycle entered with one of the three actions leaves one of the three
    behind, or stops on the image captcha: never on an unknown action. *)
Lemma cycle_outcome fuel action w :
  enumerated action ->
  post (cycle page config fuel action) w
       (fun a _ => enumerated a) (fun e _ => e = ImageCaptchaError).
Proof.
  intros Ha. unfold post. rewrite cycle_body.
  fold (post (issueAndSettle page config fuel action ;;;
              (if (action =? "fish")%string then recordFishResponse else ret tt) ;;;
              interpretResponse page fuel) w
             (fun a _ => enumerated a) (fun e _ => e = ImageCaptchaError)).
  apply post_after_framed; [now apply issueAndSettle_enumerated | intros _ w1 _].
  apply post_bind.
  destruct (action =? "fish")%string; unfold post at 1; cbn [recordFishResponse ret];
    apply interpretResponse_outcome.
Qed.

Lemma mainLoop_outcome cycles fuel action w :
  enumerated action ->
  post (mainLoop page config cycles fuel action) w
       (fun _ _ => True) (fun e _ => e = ImageCaptchaError).
Proof.
  revert action w; induction cycles as [|cycles IH]; intros action w Ha.
  - exact I.
  - unfold post. cbn [mainLoop].
    destruct (running w); [| exact I].
    fold (post (nextAction' <- cycle page config fuel action ;;
                mainLoop page config cycles fuel nextAction') w
               (fun _ _ => True) (fun e _ => e = ImageCaptchaError)).
    apply post_bind.
    eapply post_weaken; [apply (cycle_outcome fuel action w Ha) | |]; cbn beta.
    + intros a w' Hv. now apply IH.
    + auto.
Qed.

End Cycle.

(** ** Lists *)

Lemma find_none_all {A} (f : A -> bool) (l : list A) :
  (forall x, In x l -> f x = false) -> find f l = None.
Proof.
  induction l as [|a l IH]; intros H; [reflexivity |]. cbn [find].
  rewrite (H a) by now left. apply IH. intros x Hx. apply H. now right.
Qed.

Lemma find_first {A} (f : A -> bool) (before : list A) (m : A) (after : list A) :
  (forall x, In x before -> f x = false) -> f m = true ->
  find f (before ++ m :: after) = Some m.
Proof.
  intros Hb Hm. induction before as [|a l IH]; cbn [app find].
  - now rewrite Hm.
  - rewrite (Hb a) by now left. apply IH. intros x Hx. apply Hb. now right.
Qed.

Lemma In_skipn {A} (x : A) (n : nat) (l : list A) : In x (skipn n l) -> In x l.
Proof.
  intros H. rewrite <- (firstn_skipn n l). apply in_or_app. now right.
Qed.

Lemma In_skipn_le {A} (x : A) (k k' : nat) (l : list A) :
  (k <= k')%nat -> In x (skipn k' l) -> In x (skipn k l).
Proof.
  intros Hk H. replace k' with ((k' - k) + k)%nat in H by lia.
  rewrite <- skipn_skipn in H. eapply In_skipn; eauto.
Qed.

Lemma In_last_skipn {A} (d : A) (n : nat) (l : list A) :
  l <> [] -> (0 < n)%nat -> In (last l d) (skipn (List.length l - n) l).
Proof.
  intros Hl Hn.
  rewrite (app_removelast_last d Hl) at 3.
  rewrite skipn_app. apply in_or_app. right.
  assert (List.length (removelast l) = List.length l - 1)%nat as ->.
  { rewrite (app_removelast_last d Hl) at 2.
    rewrite length_app. cbn [List.length]. lia. }
  replace (List.length l - n - (List.length l - 1))%nat with 0%nat by lia.
  now left.
Qed.

Lemma marker_nonempty m : isCaptchaMessage m = true -> m <> "".
Proof. intros H ->. discriminate. Qed.

Lemma detectCaptcha_recent (page : Page) (w : World) :
  detectCaptcha page w = Ret (captchaIn (recent 2 (timeline page (now w)))) w.
Proof.
  unfold detectCaptcha, bind. now rewrite getLastMessages_recent by lia.
Qed.

Lemma captchaIn_found (before : list string) (m : string) (after : list string) :
  (forall x, In x before -> isCaptchaMessage x = false) ->
  isCaptchaMessage m = true ->
  captchaIn (before ++ m :: after) =
  match Js.matchCode m with
  | Some answer => Some (TextCaptcha answer m)
  | None => Some (ImageCaptcha m)
  end.
Proof.
  intros Hb Hm. unfold captchaIn. rewrite (find_first _ _ _ _ Hb Hm).
  pose proof (marker_nonempty m Hm).
  destruct m; [congruence | reflexivity].
Qed.

(** ** Whole cycles *)

Lemma framed_final {A} (P : Error -> Prop) (m : M A) w w' :
  framed P m -> finalWorld (m w) = Some w' -> frame w w'.
Proof.
  intros Hm. specialize (Hm w). unfold post in Hm.
  destruct (m w) as [a w1|e w1|]; cbn [finalWorld]; intros [= <-]; tauto.
Qed.

Lemma framed_no_throw {A} (m : M A) w e w' :
  framed (fun _ => False) m -> m w <> Throw e w'.
Proof.
  intros Hm Heq. specialize (Hm w). unfold post in Hm. rewrite Heq in Hm. tauto.
Qed.

Lemma post_final {A} (m : M A) w w' (Q : World -> Prop) :
  post m w (fun _ w1 => Q w1) (fun _ w1 => Q w1) ->
  finalWorld (m w) = Some w' -> Q w'.
Proof.
  unfold post. destruct (m w) as [a w1|e w1|]; cbn [finalWorld];
    intros H [= <-]; exact H.
Qed.

Lemma bind_ret_l {A B} (a : A) (k : A -> M B) w : bind (ret a) k w = k a w.
Proof. reflexivity. Qed.

Lemma bind_assoc {A B C} (m : M A) (k : A -> M B) (h : B -> M C) w :
  bind (bind m k) h w = bind m (fun a => bind (k a) h) w.
Proof. unfold bind. now destruct (m w). Qed.

Lemma bind_eq {A B} (m : M A) (k : A -> M B) w a w1 :
  m w = Ret a w1 -> bind m k w = k a w1.
Proof. unfold bind. now intros ->. Qed.

Section CycleFacts.

Variable page : Page.
Variable config : Config.

Lemma waitForCooldown_returns w :
  exists w0, waitForCooldown page config w = Ret tt w0.
Proof.
  unfold waitForCooldown.
  destruct (lastFishResponseTime w =? 0); [now exists w |].
  match goal with |- context [if ?c then _ else _] => destruct c end;
    [| now exists w].
  unfold wait, waitForTimeout. eauto.
Qed.

Lemma emit_trace e w :
  emit e w = Ret tt (mkWorld (now w) (running w) (lastFishResponseTime w)
                             (trace w ++ [e])).
Proof. reflexivity. Qed.

Lemma sendCommand_trace command w :
  sendCommand command w =
  Ret tt (mkWorld (now w) (running w) (lastFishResponseTime w)
                  (trace w ++ [Fill command; Press "Enter"; Press "Enter"])).
Proof.
  unfold sendCommand, bind. rewrite !emit_trace. cbn [now running lastFishResponseTime trace].
  now rewrite <- !app_assoc.
Qed.

Lemma sendCommandWithParams_trace command params w :
  sendCommandWithParams command params w =
  Ret tt (mkWorld (now w) (running w) (lastFishResponseTime w)
                  (trace w ++ [Fill command; Press "Enter";
                               PressSequentially params; Press "Enter"])).
Proof.
  unfold sendCommandWithParams, bind. rewrite !emit_trace.
  cbn [now running lastFishResponseTime trace].
  now rewrite <- !app_assoc.
Qed.

(** What is left of the cycle once the command is typed. *)
Lemma framed_rest (P : Error -> Prop) fuel n (record : M unit) :
  P ImageCaptchaError ->
  (forall w, exists w1, record w = Ret tt w1 /\
                        running w1 = running w /\ now w1 = now w /\ trace w1 = trace w) ->
  forall w w',
    finalWorld
      (((waitForMessagesSettled page fuel n 300 5000 ;;; wait page 0.3) ;;;
        record ;;; interpretResponse page fuel) w) = Some w' ->
    exists events, trace w' = trace w ++ events.
Proof.
  intros Hp Hrec w w'. unfold bind at 1.
  pose proof (framed_bind P _ (fun _ => wait page 0.3)
                (framed_waitForMessagesSettled page P fuel n 300 5000)
                (fun _ => framed_wait page P 0.3) w) as F1.
  unfold post in F1.
  destruct ((waitForMessagesSettled page fuel n 300 5000 ;;; wait page 0.3) w)
    as [[] w1|e w1|]; cbn [finalWorld].
  - destruct F1 as (_ & _ & _ & ev1 & T1).
    unfold bind at 1. destruct (Hrec w1) as (w2 & -> & _ & _ & T2).
    intros Hfin.
    apply (framed_final P _ _ _ (framed_interpretResponse page P fuel Hp)) in Hfin.
    destruct Hfin as (_ & _ & _ & ev2 & T3).
    exists (ev1 ++ ev2). now rewrite T3, T2, T1, app_assoc.
  - intros [= <-]. destruct F1 as [(_ & _ & _ & ev1 & T1) _]. now exists ev1.
  - discriminate.
Qed.


(** A cycle that fishes begins with the cooldown gate. *)
Lemma fish_cycle_trace fuel w w' :
  finalWorld (cycle page config fuel "fish" w) = Some w' ->
  exists w0 events,
    waitForCooldown page config w = Ret tt w0 /\
    trace w' = trace w0 ++ Fill "/fish" :: Press "Enter" :: Press "Enter" :: events.
Proof.
  rewrite cycle_body. unfold issueAndSettle.
  change ("fish" =? "fish")%string with true. cbv iota.
  destruct (waitForCooldown_returns w) as (w0 & Hw0).
  rewrite bind_assoc, (bind_eq _ _ _ _ _ Hw0).
  rewrite bind_assoc, (bind_eq (getMessageCount page) _ w0 _ w0 eq_refl).
  change (executeAction config "fish") with (sendCommand "/fish").
  rewrite bind_assoc, (bind_eq _ _ _ _ _ (sendCommand_trace _ w0)).
  match goal with |- context [mkWorld ?a ?b ?c ?d] => set (w1 := mkWorld a b c d) end.
  intros Hfin.
  destruct (framed_rest (fun _ => True) fuel
              (Z.of_nat (List.length (timeline page (now w0)))) recordFishResponse I
              (fun w => ex_intro _ _ (conj eq_refl (conj eq_refl (conj eq_refl eq_refl))))
              w1 w') as (events & T).
  - exact Hfin.
  - exists w0, events. split; [exact Hw0 |].
    rewrite T. subst w1. cbn [trace]. now rewrite <- app_assoc.
Qed.

(** *** Cycles end *)

Lemma ends_bind {A B} (m : M A) (k : A -> M B) :
  ends m -> (forall a, ends (k a)) -> ends (bind m k).
Proof.
  intros Hm Hk w. unfold bind. specialize (Hm w).
  destruct (m w) as [a w1|e w1|]; [apply Hk | discriminate | congruence].
Qed.

Lemma ends_ret {A} (a : A) : ends (ret a).
Proof. intros w. discriminate. Qed.

Lemma ends_waitForCooldown : ends (waitForCooldown page config).
Proof. intros w. destruct (waitForCooldown_returns w) as (w0 & ->). discriminate. Qed.

Lemma ends_executeAction action : ends (executeAction config action).
Proof.
  intros w. unfold executeAction.
  destruct (action =? "fish")%string; [now rewrite sendCommand_trace |].
  destruct (action =? "sell")%string; [now rewrite sendCommandWithParams_trace |].
  destruct (action =? "buy")%string; [now rewrite sendCommandWithParams_trace |].
  discriminate.
Qed.

Lemma ends_handleCaptcha c : ends (handleCaptcha page c).
Proof.
  intros w. destruct c; cbn [handleCaptcha]; [| discriminate].
  unfold bind. now rewrite sendCommandWithParams_trace.
Qed.

Lemma ends_issueAndSettle k action :
  ends (issueAndSettle page config (52 + k) action).
Proof.
  unfold issueAndSettle. apply ends_bind.
  { destruct (action =? "fish")%string; [apply ends_waitForCooldown | apply ends_ret]. }
  intros _. apply ends_bind; [intros w; discriminate | intros n].
  apply ends_bind; [apply ends_executeAction | intros _].
  apply ends_bind; [| intros _ w; discriminate].
  intros w. destruct (waitForMessagesSettled_returns page k n 300 5000 w) as (w' & H & _).
  change (Z.to_nat (5000 / 100) + 2 + k)%nat with (52 + k)%nat in H.
  now rewrite H.
Qed.

Lemma ends_interpretResponse k : ends (interpretResponse page (52 + k)).
Proof.
  unfold interpretResponse. apply ends_bind.
  { intros w. rewrite detectCaptcha_recent. discriminate. }
  intros captcha. apply ends_bind.
  { destruct captcha; [apply ends_handleCaptcha | apply ends_ret]. }
  intros _ w.
  destruct (determineNextAction_returns page (21 + k) w) as (w' & H & _).
  change (31 + (21 + k))%nat with (52 + k)%nat in H. now rewrite H.
Qed.

(** With 52 units of fuel, enough for the five seconds of the settle wait
    and the three of the last read, a cycle returns or throws. *)
Lemma cycle_ends k action w :
  exists w', finalWorld (cycle page config (52 + k) action w) = Some w'.
Proof.
  assert (E : cycle page config (52 + k) action w <> OutOfFuel).
  { rewrite cycle_body. revert w. apply ends_bind; [apply ends_issueAndSettle |].
    intros _. apply ends_bind; [| intros _; apply ends_interpretResponse].
    destruct (action =? "fish")%string; intros w; discriminate. }
  destruct (cycle page config (52 + k) action w) as [a w'|e w'|];
    [now exists w' | now exists w' | congruence].
Qed.

End CycleFacts.

(** ** Doubles *)


(** * Properties of the specification *)

(** C1. Whatever the page shows, [determineNextAction] returns (it neither
    throws nor runs forever: 31 units of fuel cover its three seconds), and
    what it returns is decided by the most recent entry alone, in priority
    order: "you ran out of" gives sell; otherwise "you sold" gives buy;
    otherwise "you bought" or "bait purchase" gives fish; otherwise fish.
    In particular an entry with the depletion phrase in last place gives
    sell whatever the earlier entries are. *)
Theorem determineNextAction_priority (page : Page) (k : nat) (w : World) :
  (exists w' a,
     determineNextAction page (31 + k) w = Ret a w' /\
     let msg := Js.toLowerCase (lastText (timeline page (now w'))) in
     (Js.includes msg "you ran out of" = true -> a = "sell") /\
     (Js.includes msg "you ran out of" = false ->
      Js.includes msg "you sold" = true -> a = "buy") /\
     (Js.includes msg "you ran out of" = false ->
      Js.includes msg "you sold" = false ->
      Js.includes msg "you bought" = true \/ Js.includes msg "bait purchase" = true ->
      a = "fish") /\
     (Js.includes msg "you ran out of" = false ->
      Js.includes msg "you sold" = false ->
      Js.includes msg "you bought" = false ->
      Js.includes msg "bait purchase" = false ->
      a = "fish")) /\
  (forall earlier latest,
     (forall t, timeline page t = earlier ++ [Some latest]) ->
     Js.includes (Js.toLowerCase latest) "you ran out of" = true ->
     exists w', determineNextAction page (31 + k) w = Ret "sell" w').
Proof.
  destruct (determineNextAction_returns page k w) as (w' & Hrun & _).
  split.
  - exists w', (nextActionFor (lastText (timeline page (now w')))).
    split; [exact Hrun |]. cbv zeta. unfold nextActionFor.
    repeat split; intros; repeat match goal with
      | H : _ = _ |- _ => rewrite H
      end; try reflexivity.
    match goal with |- context [if ?c then _ else _] => destruct c end; reflexivity.
  - intros earlier latest Hpage Hphrase. exists w'. rewrite Hrun. f_equal.
    rewrite Hpage. unfold lastText. rewrite last_last. cbn [textOf].
    unfold nextActionFor. now rewrite Hphrase.
Qed.

Lemma determineNextAction_priority_witness :
  exists w',
    determineNextAction
      (staticPage [Some "You caught a cod!"; Some "You ran out of worms!"])
      (31 + 0) freshWorld = Ret "sell" w'.
Proof.
  apply (proj2 (determineNextAction_priority
                  (staticPage [Some "You caught a cod!"; Some "You ran out of worms!"])
                  0 freshWorld)
               [Some "You caught a cod!"] "You ran out of worms!");
    reflexivity.
Defined.

(** C2, amended.  When the captcha found after a command is an
    image captcha, the main loop ends there with the image-captcha error,
    however many cycles it had left: the error is not caught, the world it
    ends in is the world at the detection (nothing is typed afterwards),
    and [running] is still [true]. *)
Theorem image_captcha_is_fatal
        (page : Page) (config : Config) (cycles fuel : nat) (action : string)
        (w w1 : World) (fullMessage : string) :
  running w = true ->
  (issueAndSettle page config fuel action ;;;
   (if (action =? "fish")%string then recordFishResponse else ret tt)) w = Ret tt w1 ->
  detectCaptcha page w1 = Ret (Some (ImageCaptcha fullMessage)) w1 ->
  mainLoop page config (S cycles) fuel action w = Throw ImageCaptchaError w1 /\
  running w1 = true.
Proof.
  intros Hrunning Hfirst Hdetect. split.
  - cbn [mainLoop]. rewrite Hrunning. unfold bind at 1.
    rewrite cycle_body.
    rewrite <- (bind_assoc (issueAndSettle page config fuel action)
                  (fun _ => if (action =? "fish")%string then recordFishResponse else ret tt)
                  (fun _ => interpretResponse page fuel) w).
    rewrite (bind_eq _ _ _ _ _ Hfirst).
    unfold interpretResponse.
    rewrite (bind_eq _ _ _ _ _ Hdetect). reflexivity.
  - rewrite <- Hrunning.
    unfold bind in Hfirst.
    destruct (issueAndSettle page config fuel action w) as [[] w0|e w0|] eqn:Hissue;
      try discriminate.
    assert (Hw0 : running w0 = running w).
    { destruct (String.eqb_spec action "fish") as [-> | Hne].
      - apply (framed_final (fun _ => True) _ _ _
                 (issueAndSettle_enumerated page config _ fuel "fish"
                    (or_introl eq_refl))).
        now rewrite Hissue.
      - apply (framed_final (fun _ => True) _ _ _
                 (framed_issueAndSettle page config _ fuel action I)).
        now rewrite Hissue. }
    destruct (action =? "fish")%string; injection Hfirst as <-; exact Hw0.
Qed.

Lemma image_captcha_is_fatal_witness :
  mainLoop (staticPage [Some "Anti-bot check: solve the image"]) defaultConfig
           3 60 "fish" (mkWorld 1000 true 0 []) =
    Throw ImageCaptchaError imageCaptchaWorld /\
  running imageCaptchaWorld = true.
Proof.
  apply (image_captcha_is_fatal
           (staticPage [Some "Anti-bot check: solve the image"]) defaultConfig
           2 60 "fish" (mkWorld 1000 true 0 []) imageCaptchaWorld
           "Anti-bot check: solve the image").
  - reflexivity.
  - vm_compute. reflexivity.
  - vm_compute. reflexivity.
Defined.

(** C2 as the specification words it does not hold: [start] ends on the
    image captcha with [running] still [true]; no path of the class resets
    the flag on a failure. *)
Lemma running_stays_true_after_image_captcha :
  start (staticPage [Some "Anti-bot check: solve the image"]) defaultConfig
        3 60 freshWorld = Throw ImageCaptchaError imageCaptchaWorld /\
  running imageCaptchaWorld = true.
Proof. split; vm_compute; reflexivity. Qed.

(** C3. [detectCaptcha] looks at the two most recent entries [recent 2]
    and takes the first of them that holds "anti-bot" in any letter case.
    No such entry: [null].  An entry whose leftmost "Code:" label (any
    case) is followed by optional blanks and a run of non-blanks: a text
    captcha whose answer is exactly that run, so "... Code: AB12" gives
    "AB12".  An entry without the label: an image captcha.  The world is
    left as it was. *)
Theorem detectCaptcha_cases (page : Page) (w : World) :
  let entries := recent 2 (timeline page (now w)) in
  ((forall m, In m entries -> Js.includes (Js.toLowerCase m) "anti-bot" = false) ->
   detectCaptcha page w = Ret None w) /\
  (forall before m after,
     entries = before ++ m :: after ->
     (forall x, In x before -> Js.includes (Js.toLowerCase x) "anti-bot" = false) ->
     Js.includes (Js.toLowerCase m) "anti-bot" = true ->
     (forall pre label blanks code rest,
        m = (pre ++ label ++ blanks ++ code ++ rest)%string ->
        Js.includes (Js.toLowerCase pre ++ "code") "code:" = false ->
        Js.toLowerCase label = "code:" ->
        allChars Js.isSpace blanks = true ->
        code <> "" ->
        allChars (fun c => negb (Js.isSpace c)) code = true ->
        endsRun rest = true ->
        detectCaptcha page w = Ret (Some (TextCaptcha code m)) w) /\
     (Js.includes (Js.toLowerCase m) "code:" = false ->
      detectCaptcha page w = Ret (Some (ImageCaptcha m)) w)).
Proof.
  cbv zeta. rewrite detectCaptcha_recent. split.
  - intros Hnone. unfold captchaIn.
    now rewrite (find_none_all isCaptchaMessage _ Hnone).
  - intros before m after -> Hbefore Hm.
    rewrite (captchaIn_found before m after Hbefore Hm). split.
    + intros pre label blanks code rest -> Hpre Hlabel Hblanks Hne Hcode Hrest.
      now rewrite (JsFacts.matchCode_leftmost pre label blanks code rest).
    + intros Hno. now rewrite (JsFacts.matchCode_absent m Hno).
Qed.

Lemma detectCaptcha_cases_witness :
  detectCaptcha
    (staticPage [Some "You caught a cod!";
                 Some "Anti-bot verification - Code: AB12"]) freshWorld =
  Ret (Some (TextCaptcha "AB12" "Anti-bot verification - Code: AB12")) freshWorld.
Proof.
  refine (proj1 (proj2 (detectCaptcha_cases
            (staticPage [Some "You caught a cod!";
                         Some "Anti-bot verification - Code: AB12"]) freshWorld)
            ["You caught a cod!"] "Anti-bot verification - Code: AB12" []
            eq_refl _ eq_refl)
          "Anti-bot verification - " "Code:" " " "AB12" ""
          eq_refl eq_refl eq_refl eq_refl _ eq_refl eq_refl).
  - intros x [<- | []]. reflexivity.
  - discriminate.
Defined.

(** C4. On a page whose message count never goes down,
    [waitForMessagesSettled] always returns, and never by an error.  When
    it returns, either the count has stood still over a window of at least
    [settleMs] milliseconds that ends at the return (a growth early in the
    wait only moves the start of that window), or the hard timeout
    [timeoutMs] has passed. *)
Theorem waitForMessagesSettled_quiet_or_timeout
        (page : Page) (k : nat) (previousCount settleMs timeoutMs : Z) (w : World) :
  (forall t1 t2, t1 <= t2 -> countAt page t1 <= countAt page t2) ->
  previousCount <= countAt page (now w) ->
  exists w',
    waitForMessagesSettled page (Z.to_nat (timeoutMs / 100) + 2 + k)
                           previousCount settleMs timeoutMs w = Ret tt w' /\
    running w' = running w /\
    lastFishResponseTime w' = lastFishResponseTime w /\
    ((exists t0,
        now w <= t0 <= now w' /\ settleMs <= now w' - t0 /\
        forall t, t0 <= t <= now w' -> countAt page t = countAt page t0) \/
     timeoutMs <= now w' - now w).
Proof.
  intros Hmono Hprev.
  destruct (waitForMessagesSettled_returns page k previousCount settleMs timeoutMs w)
    as (w' & Hrun & Hrunning & Hlast & _).
  exists w'. repeat split; try assumption.
  unfold waitForMessagesSettled in Hrun.
  rewrite (bind_eq dateNow _ w (now w) w eq_refl) in Hrun.
  rewrite (bind_eq dateNow _ w (now w) w eq_refl) in Hrun.
  eapply (settleFrom_quiet page Hmono); [| exact Hprev | exact Hrun]. lia.
Qed.

Lemma waitForMessagesSettled_quiet_or_timeout_witness :
  exists w',
    waitForMessagesSettled replyAfter50 (Z.to_nat (5000 / 100) + 2 + 0)
                           0 300 5000 freshWorld = Ret tt w' /\
    now w' = 1400.
Proof.
  destruct (waitForMessagesSettled_quiet_or_timeout replyAfter50 0 0 300 5000 freshWorld)
    as (w' & Hrun & _).
  - intros t1 t2 Ht. unfold countAt, replyAfter50. cbn [timeline].
    destruct (t1 <? 1050) eqn:E1, (t2 <? 1050) eqn:E2; cbn [List.length]; lia.
  - vm_compute. discriminate.
  - exists w'. split; [exact Hrun |].
    vm_compute in Hrun. now injection Hrun as <-.
Defined.




(** C6, amended.  The decision reads the most recent entry and
    no other: two pages that agree on their most recent entry at every
    instant (and on their timers) give the same outcome, whatever their
    earlier entries are.  Only the captcha check reads two entries. *)
Theorem determineNextAction_reads_last_entry_only
        (page1 page2 : Page) (fuel : nat) (w : World) :
  (forall t, lastText (timeline page1 t) = lastText (timeline page2 t)) ->
  (forall t, jitter page1 t = jitter page2 t) ->
  determineNextAction page1 fuel w = determineNextAction page2 fuel w.
Proof.
  intros Hlast Hjitter.
  assert (Hloop : forall startTime w0,
            getLastMessageFrom page1 fuel startTime w0 =
            getLastMessageFrom page2 fuel startTime w0).
  { intros startTime. induction fuel as [|fuel' IH]; intros w0; [reflexivity |].
    cbn [getLastMessageFrom].
    rewrite !(bind_eq dateNow _ w0 (now w0) w0 eq_refl).
    destruct (now w0 - startTime <? 3000).
    - rewrite !(bind_eq _ _ _ _ _ (getLastMessages_recent _ 1 w0 ltac:(lia))).
      change (Z.to_nat 1) with 1%nat. rewrite !head_recent_1, Hlast.
      match goal with |- (if ?c then _ else _) _ = _ => destruct c end;
        [reflexivity |].
      rewrite !(bind_eq _ _ _ _ _ (wait_tenth _ w0)), Hjitter. apply IH.
    - rewrite !(bind_eq _ _ _ _ _ (getLastMessages_recent _ 1 w0 ltac:(lia))).
      change (Z.to_nat 1) with 1%nat. now rewrite !head_recent_1, Hlast. }
  unfold determineNextAction, getLastMessage, bind. cbn [dateNow].
  now rewrite Hloop.
Qed.

Lemma determineNextAction_reads_last_entry_only_witness :
  determineNextAction
    (staticPage [Some "You ran out of worms!"; Some "You caught a cod!"])
    31 freshWorld =
  determineNextAction (staticPage [Some "You caught a cod!"]) 31 freshWorld.
Proof.
  apply determineNextAction_reads_last_entry_only; intros t; reflexivity.
Defined.

(** C6 as the specification words it does not hold: with the depletion
    phrase in the next-to-last entry and a catch in the last one, the
    decision is fish, not sell. *)
Lemma depletion_in_next_to_last_entry_is_missed :
  Js.includes (Js.toLowerCase "You ran out of worms!") "you ran out of" = true /\
  determineNextAction
    (staticPage [Some "You ran out of worms!"; Some "You caught a cod!"])
    31 freshWorld = Ret "fish" freshWorld.
Proof. split; reflexivity. Qed.

(** C7. [nextAction] never leaves the three actions: the decision is one of
    fish, sell and buy for every text; [determineNextAction] returns one of
    them on every page; and however many cycles [start] runs, it never
    stops on the unknown-action error of [executeAction]. *)
Theorem nextAction_always_enumerated :
  (forall lastMsg, enumerated (nextActionFor lastMsg)) /\
  (forall page k w,
     exists a w', determineNextAction page (31 + k) w = Ret a w' /\ enumerated a) /\
  (forall page config cycles fuel w,
     match start page config cycles fuel w with
     | Throw (UnknownAction _) _ => False
     | _ => True
     end).
Proof.
  repeat split.
  - apply nextActionFor_enumerated.
  - intros page k w. destruct (determineNextAction_returns page k w) as (w' & Hrun & _).
    eexists _, w'. split; [exact Hrun | apply nextActionFor_enumerated].
  - intros page config cycles fuel w. unfold start, bind. cbn [setRunning].
    match goal with |- context [mainLoop _ _ _ _ _ ?w1] =>
      pose proof (mainLoop_outcome page config cycles fuel "fish" w1) as H
    end.
    unfold post in H.
    match type of H with _ -> match ?r with _ => _ end =>
      destruct r as [a w'|e w'|]
    end; auto.
    destruct e; auto.
    assert (UnknownAction action = ImageCaptchaError)
      by (apply H; left; reflexivity).
    discriminate.
Qed.

(** C8. With enough fuel a cycle ends, by a value or by an error.  A
    cycle that ends leaves [lastFishResponseTime] as it was unless its
    action is fish; a fish cycle sets it to the clock read after the
    command was typed, the messages settled and the 0.3 s render delay
    passed. *)
Theorem lastFishResponseTime_set_by_fish_only
        (page : Page) (config : Config) (action : string) (w : World) :
  (forall k, exists w', finalWorld (cycle page config (52 + k) action w) = Some w') /\
  (forall fuel w',
     finalWorld (cycle page config fuel action w) = Some w' ->
     (action <> "fish" -> lastFishResponseTime w' = lastFishResponseTime w) /\
     (action = "fish" ->
      exists w0 n w1 w2 w3,
        waitForCooldown page config w = Ret tt w0 /\
        getMessageCount page w0 = Ret n w0 /\
        executeAction config "fish" w0 = Ret tt w1 /\
        waitForMessagesSettled page fuel n 300 5000 w1 = Ret tt w2 /\
        wait page 0.3 w2 = Ret tt w3 /\
        lastFishResponseTime w' = now w3)).
Proof.
  split; [intros k; apply cycle_ends |].
  intros fuel w' Hfin. split.
  - intros Hother. apply String.eqb_neq in Hother.
    rewrite cycle_body, Hother in Hfin.
    assert (F : framed (fun _ => True)
                  (issueAndSettle page config fuel action ;;; ret tt ;;;
                   interpretResponse page fuel)).
    { apply framed_bind; [now apply framed_issueAndSettle | intros _].
      apply framed_bind; [apply framed_ret | intros _].
      now apply framed_interpretResponse. }
    apply (framed_final _ _ _ _ F) in Hfin. apply Hfin.
  - intros ->. rewrite cycle_body in Hfin. unfold issueAndSettle in Hfin.
    change ("fish" =? "fish")%string with true in Hfin. cbv iota in Hfin.
    destruct (waitForCooldown_returns page config w) as (w0 & Hw0).
    rewrite bind_assoc, (bind_eq _ _ _ _ _ Hw0) in Hfin.
    rewrite bind_assoc, (bind_eq (getMessageCount page) _ w0 _ w0 eq_refl) in Hfin.
    set (n := Z.of_nat (List.length (timeline page (now w0)))) in *.
    destruct (executeAction config "fish" w0) as [[] w1|e w1|] eqn:Hexec;
      [| discriminate Hexec | discriminate Hexec].
    rewrite bind_assoc, (bind_eq _ _ _ _ _ Hexec) in Hfin.
    rewrite bind_assoc in Hfin.
    destruct (waitForMessagesSettled page fuel n 300 5000 w1) as [[] w2|e w2|] eqn:Hs.
    + rewrite (bind_eq _ _ _ _ _ Hs) in Hfin.
      destruct (wait page 0.3 w2) as [[] w3|e w3|] eqn:Hwait;
        [| discriminate Hwait | discriminate Hwait].
      rewrite (bind_eq _ _ _ _ _ Hwait) in Hfin.
      rewrite (bind_eq recordFishResponse _ w3 _ _ eq_refl) in Hfin.
      apply (framed_final (fun _ => True) _ _ _
               (framed_interpretResponse page _ fuel I)) in Hfin.
      exists w0, n, w1, w2, w3. repeat split; try assumption.
      destruct Hfin as (_ & Hlast & _). exact Hlast.
    + exfalso. eapply (framed_no_throw _ w1 e w2); [| exact Hs].
      apply framed_waitForMessagesSettled.
    + unfold bind in Hfin. rewrite Hs in Hfin. discriminate.
Qed.

Lemma lastFishResponseTime_set_by_fish_only_witness :
  (exists w',
     finalWorld (cycle (staticPage [Some "You sold 3 fish for 12 coins"])
                       defaultConfig 60 "sell" (mkWorld 5000 true 4321 [])) = Some w' /\
     lastFishResponseTime w' = 4321) /\
  (exists w',
     finalWorld (cycle (staticPage [Some "You caught a cod!"])
                       defaultConfig 60 "fish" (mkWorld 5000 true 4321 [])) = Some w' /\
     lastFishResponseTime w' = 8421).
Proof.
  split.
  - eexists. split; [vm_compute; reflexivity |].
    refine (proj1 (proj2 (lastFishResponseTime_set_by_fish_only
                     (staticPage [Some "You sold 3 fish for 12 coins"])
                     defaultConfig "sell" (mkWorld 5000 true 4321 [])) 60%nat _ _) _).
    + vm_compute. reflexivity.
    + discriminate.
  - eexists. split; [vm_compute; reflexivity |].
    destruct (proj2 (proj2 (lastFishResponseTime_set_by_fish_only
                     (staticPage [Some "You caught a cod!"])
                     defaultConfig "fish" (mkWorld 5000 true 4321 [])) 60%nat _
                     ltac:(vm_compute; reflexivity)) eq_refl)
      as (w0 & n & w1 & w2 & w3 & H0 & Hn & H1 & H2 & H3 & Hlast).
    rewrite Hlast.
    vm_compute in H0. injection H0 as <-.
    vm_compute in Hn. injection Hn as <-.
    vm_compute in H1. injection H1 as <-.
    vm_compute in H2. injection H2 as <-.
    vm_compute in H3. injection H3 as <-.
    reflexivity.
Defined.

(** C9. [detectCaptcha] is a function of the two most recent entries and
    nothing else: it leaves the world as it found it, running it twice in
    a row gives the same captcha (or [null]) twice, and any page and world
    that show the same two entries give that same result. *)
Theorem detectCaptcha_pure (page : Page) (w : World) :
  exists c,
    detectCaptcha page w = Ret c w /\
    (c1 <- detectCaptcha page ;; c2 <- detectCaptcha page ;; ret (c1, c2)) w =
      Ret (c, c) w /\
    forall page' w',
      recent 2 (timeline page' (now w')) = recent 2 (timeline page (now w)) ->
      detectCaptcha page' w' = Ret c w'.
Proof.
  exists (captchaIn (recent 2 (timeline page (now w)))).
  repeat split.
  - apply detectCaptcha_recent.
  - unfold bind. now rewrite !detectCaptcha_recent.
  - intros page' w' Hsame. now rewrite detectCaptcha_recent, Hsame.
Qed.

Lemma detectCaptcha_pure_witness :
  detectCaptcha
    (mkPage (fun _ => [Some "older"; Some "You sold 3 fish";
                       Some "Anti-bot verification - Code: Q7W2"])
            (fun _ => 5%N))
    (mkWorld 77 true 12 [Press "Enter"]) =
  Ret (Some (TextCaptcha "Q7W2" "Anti-bot verification - Code: Q7W2"))
      (mkWorld 77 true 12 [Press "Enter"]).
Proof.
  destruct (detectCaptcha_pure
              (staticPage [Some "You sold 3 fish";
                           Some "Anti-bot verification - Code: Q7W2"]) freshWorld)
    as (c & Hc & _ & Hsame).
  rewrite (Hsame (mkPage (fun _ => [Some "older"; Some "You sold 3 fish";
                                    Some "Anti-bot verification - Code: Q7W2"])
                         (fun _ => 5%N))
                 (mkWorld 77 true 12 [Press "Enter"]) eq_refl).
  f_equal. vm_compute in Hc. now injection Hc as <-.
Defined.

(** C10. On a page with no entries, or whose two most recent entries
    cannot be read, nothing throws: [getLastMessages] returns only empty
    strings, [detectCaptcha] returns [null], and [determineNextAction]
    returns fish once its three seconds are over. *)
Theorem unreadable_timeline_is_benign (page : Page) (w : World) :
  (forall t e, now w <= t ->
     In e (skipn (List.length (timeline page t) - 2) (timeline page t)) -> e = None) ->
  (forall n, n = 1 \/ n = 2 ->
     exists messages,
       getLastMessages page n w = Ret messages w /\
       forall m, In m messages -> m = "") /\
  detectCaptcha page w = Ret None w /\
  (forall k, exists w', determineNextAction page (31 + k) w = Ret "fish" w').
Proof.
  intros Hblank.
  assert (Hrecent : forall t n m, now w <= t -> (n <= 2)%nat ->
            In m (recent n (timeline page t)) -> m = "").
  { intros t n m Ht Hn Hin. unfold recent in Hin.
    apply in_map_iff in Hin as (e & <- & He).
    rewrite (Hblank t e Ht); [reflexivity |].
    eapply In_skipn_le; [| exact He]. lia. }
  repeat split.
  - intros n Hn. exists (recent (Z.to_nat n) (timeline page (now w))). split.
    + apply getLastMessages_recent. lia.
    + intros m. apply Hrecent; lia.
  - rewrite detectCaptcha_recent. f_equal. unfold captchaIn.
    rewrite find_none_all; [reflexivity |].
    intros m Hm. now rewrite (Hrecent (now w) 2%nat m) by (lia || assumption).
  - intros k. destruct (determineNextAction_returns page k w) as (w' & Hrun & Hframe).
    exists w'. rewrite Hrun. f_equal.
    assert (Hlast : lastText (timeline page (now w')) = "").
    { unfold lastText. destruct (timeline page (now w')) as [|x l] eqn:El;
        [reflexivity |].
      rewrite (Hblank (now w') (last (x :: l) None)); [reflexivity | |].
      - destruct Hframe as (_ & _ & Hnow & _). exact Hnow.
      - rewrite El. apply In_last_skipn; [discriminate | lia]. }
    now rewrite Hlast.
Qed.

Lemma unreadable_timeline_is_benign_witness :
  detectCaptcha (staticPage [Some "You caught a cod!"; None; None]) freshWorld =
    Ret None freshWorld /\
  exists w', determineNextAction (staticPage []) (31 + 0) freshWorld = Ret "fish" w'.
Proof.
  split.
  - apply (unreadable_timeline_is_benign
             (staticPage [Some "You caught a cod!"; None; None]) freshWorld).
    intros t e _ [<- | [<- | []]]; reflexivity.
  - apply (unreadable_timeline_is_benign (staticPage []) freshWorld).
    intros t e _ [].
Defined.

(** * Further facts *)

(** ** More on strings *)

Module JsMore.
Import Js.
Local Open Scope string_scope.

(** Lowering both sides keeps an occurrence. *)
Lemma includes_toLowerCase (s t : string) :
  includes s t = true -> includes (toLowerCase s) (toLowerCase t) = true.
Proof.
  intros H. apply JsFacts.includes_iff in H as (a & b & ->).
  apply JsFacts.includes_iff.
  exists (toLowerCase a), (toLowerCase b).
  now rewrite !JsFacts.toLowerCase_append.
Qed.

Lemma stripLiteralCI_suffix (p s r : string) :
  stripLiteralCI p s = Some r -> exists l, s = l ++ r.
Proof.
  revert s; induction p as [|a p IH]; intros s H; cbn [stripLiteralCI] in H.
  - injection H as <-. now exists "".
  - destruct s as [|b s]; [discriminate |].
    destruct (Ascii.eqb (lowerChar a) (lowerChar b)); [| discriminate].
    destruct (IH s H) as (l & ->). now exists (String b l).
Qed.

Lemma skipSpaces_suffix (s : string) : exists ws, s = ws ++ skipSpaces s.
Proof.
  induction s as [|c s (ws & IH)]; [now exists "" |].
  cbn [skipSpaces]. destruct (isSpace c).
  - exists (String c ws). cbn [append]. now rewrite <- IH.
  - now exists "".
Qed.

Lemma takeNonSpaces_prefix (s : string) : exists tail, s = takeNonSpaces s ++ tail.
Proof.
  induction s as [|c s (tail & IH)]; [now exists "" |].
  cbn [takeNonSpaces]. destruct (isSpace c).
  - now exists (String c s).
  - exists tail. cbn [append]. now rewrite <- IH.
Qed.

Lemma takeNonSpaces_no_blank (s : string) :
  allChars (fun c => negb (isSpace c)) (takeNonSpaces s) = true.
Proof.
  induction s as [|c s IH]; [reflexivity |].
  cbn [takeNonSpaces]. destruct (isSpace c) eqn:E; [reflexivity |].
  cbn [allChars]. now rewrite E, IH.
Qed.

Lemma matchCodeAt_group (s g : string) :
  matchCodeAt s = Some g ->
  g <> "" /\ allChars (fun c => negb (isSpace c)) g = true /\
  exists a b, s = a ++ g ++ b.
Proof.
  unfold matchCodeAt.
  destruct (stripLiteralCI "Code:" s) as [rest|] eqn:Er; [| discriminate].
  destruct (takeNonSpaces (skipSpaces rest)) as [|c g'] eqn:Eg; [discriminate |].
  intros [= <-]. split; [discriminate |]. split.
  - rewrite <- Eg. apply takeNonSpaces_no_blank.
  - destruct (stripLiteralCI_suffix _ _ _ Er) as (l & ->).
    destruct (skipSpaces_suffix rest) as (ws & Hws).
    destruct (takeNonSpaces_prefix (skipSpaces rest)) as (tail & Htail).
    rewrite Eg in Htail.
    exists (l ++ ws), tail.
    rewrite Hws at 1. rewrite Htail at 1.
    now rewrite JsFacts.append_assoc.
Qed.

(** Group 1 of a match is never empty, holds no blank and is a piece of
    the text. *)
Lemma matchCode_group (s g : string) :
  matchCode s = Some g ->
  g <> "" /\ allChars (fun c => negb (isSpace c)) g = true /\
  includes s g = true.
Proof.
  induction s as [|c s IH]; intros H.
  - discriminate.
  - cbn [matchCode] in H.
    destruct (matchCodeAt (String c s)) as [g'|] eqn:E.
    + injection H as ->.
      destruct (matchCodeAt_group _ _ E) as (Hne & Hnb & a & b & Hs).
      repeat split; try assumption.
      apply JsFacts.includes_iff. now exists a, b.
    + destruct (IH H) as (Hne & Hnb & Hin).
      repeat split; try assumption.
      cbn [includes]. rewrite Hin. apply orb_true_r.
Qed.

End JsMore.

(** ** What is typed *)

Lemma keys_app (a b : list Event) : keys (a ++ b) = keys a ++ keys b.
Proof. apply filter_app. Qed.

Lemma typed_refl w : typed [] w w.
Proof. exists []. split; [now rewrite app_nil_r | reflexivity]. Qed.

Lemma typed_trans l1 l2 w1 w2 w3 :
  typed l1 w1 w2 -> typed l2 w2 w3 -> typed (l1 ++ l2) w1 w3.
Proof.
  intros (e1 & T1 & K1) (e2 & T2 & K2). exists (e1 ++ e2). split.
  - now rewrite T2, T1, app_assoc.
  - now rewrite keys_app, K1, K2.
Qed.

Lemma typed_nothing_after l w1 w2 w3 :
  typed l w1 w2 -> typed [] w2 w3 -> typed l w1 w3.
Proof.
  intros H1 H2. rewrite <- (app_nil_r l). eapply typed_trans; eauto.
Qed.

Lemma sends_ret {A} (a : A) : sends [] (ret a).
Proof. intros w. apply typed_refl. Qed.

Lemma sends_bind {A B} l1 l2 (m : M A) (k : A -> M B) :
  sends l1 m -> (forall a, sends l2 (k a)) -> sends (l1 ++ l2) (bind m k).
Proof.
  intros Hm Hk w. apply post_bind.
  eapply post_weaken; [apply Hm | | auto]; cbn beta.
  intros a w1 T1. eapply post_weaken; [apply Hk | | auto]; cbn beta.
  intros b w2 T2. eapply typed_trans; eauto.
Qed.

Lemma sends_then {A B} l (m : M A) (k : A -> M B) :
  sends l m -> (forall a, sends [] (k a)) -> sends l (bind m k).
Proof.
  intros Hm Hk. rewrite <- (app_nil_r l). now apply sends_bind.
Qed.

Lemma sends_final {A} l (m : M A) w w' :
  sends l m -> finalWorld (m w) = Some w' -> typed l w w'.
Proof.
  intros Hm. specialize (Hm w). unfold post in Hm.
  destruct (m w) as [a w1|e w1|]; cbn [finalWorld]; intros [= <-]; tauto.
Qed.

Lemma sends_dateNow : sends [] dateNow.
Proof. intros w. apply typed_refl. Qed.

Lemma sends_sendCommand command :
  sends [Fill command; Press "Enter"; Press "Enter"] (sendCommand command).
Proof.
  intros w. unfold post. rewrite sendCommand_trace.
  eexists. split; [reflexivity | reflexivity].
Qed.

Lemma sends_sendCommandWithParams command params :
  sends [Fill command; Press "Enter"; PressSequentially params; Press "Enter"]
        (sendCommandWithParams command params).
Proof.
  intros w. unfold post. rewrite sendCommandWithParams_trace.
  eexists. split; [reflexivity | reflexivity].
Qed.

Lemma sends_recordFishResponse : sends [] recordFishResponse.
Proof.
  intros w. exists []. cbn [trace]. split; [now rewrite app_nil_r | reflexivity].
Qed.

Section Typing.

Variable page : Page.
Variable config : Config.

Lemma sends_waitForTimeout ms : sends [] (waitForTimeout page ms).
Proof.
  intros w. unfold post, waitForTimeout.
  exists [WaitForTimeout ms]. split; reflexivity.
Qed.

Lemma sends_wait s : sends [] (wait page s).
Proof. apply sends_waitForTimeout. Qed.

Lemma sends_getMessageCount : sends [] (getMessageCount page).
Proof. intros w. apply typed_refl. Qed.

Lemma sends_getLastMessages n : sends [] (getLastMessages page n).
Proof. intros w. apply typed_refl. Qed.

Lemma sends_detectCaptcha : sends [] (detectCaptcha page).
Proof.
  unfold detectCaptcha.
  apply (sends_bind [] []); [apply sends_getLastMessages | intros; apply sends_ret].
Qed.

Lemma sends_getLastMessageFrom fuel startTime :
  sends [] (getLastMessageFrom page fuel startTime).
Proof.
  induction fuel as [|fuel IH]; [intros w; exact I |].
  cbn [getLastMessageFrom].
  apply (sends_bind [] []); [apply sends_dateNow | intros t].
  destruct (t - startTime <? 3000).
  - apply (sends_bind [] []); [apply sends_getLastMessages | intros messages].
    match goal with |- sends _ (if ?c then _ else _) => destruct c end.
    + apply sends_ret.
    + apply (sends_bind [] []); [apply sends_wait | intros _; exact IH].
  - apply (sends_bind [] []); [apply sends_getLastMessages | intros; apply sends_ret].
Qed.

Lemma sends_getLastMessage fuel : sends [] (getLastMessage page fuel).
Proof.
  unfold getLastMessage.
  apply (sends_bind [] []); [apply sends_dateNow | intros; apply sends_getLastMessageFrom].
Qed.

Lemma sends_determineNextAction fuel : sends [] (determineNextAction page fuel).
Proof.
  unfold determineNextAction.
  apply (sends_bind [] []); [apply sends_getLastMessage | intros; apply sends_ret].
Qed.

Lemma sends_settleFrom fuel settleMs timeoutMs startTime lastCount lastChangeTime :
  sends [] (settleFrom page fuel settleMs timeoutMs startTime lastCount lastChangeTime).
Proof.
  revert lastCount lastChangeTime.
  induction fuel as [|fuel IH]; intros lastCount lastChangeTime; [intros w; exact I |].
  cbn [settleFrom].
  apply (sends_bind [] []); [apply sends_dateNow | intros t].
  destruct (t - startTime <? timeoutMs); [| apply sends_ret].
  apply (sends_bind [] []); [apply sends_wait | intros _].
  apply (sends_bind [] []); [apply sends_getMessageCount | intros currentCount].
  apply (sends_bind [] []).
  - destruct (lastCount <? currentCount); [| apply sends_ret].
    apply (sends_bind [] []); [apply sends_dateNow | intros; apply sends_ret].
  - intros st. apply (sends_bind [] []); [apply sends_dateNow | intros t2].
    destruct (settleMs <=? t2 - snd st); [apply sends_ret | apply IH].
Qed.

Lemma sends_waitForMessagesSettled fuel previousCount settleMs timeoutMs :
  sends [] (waitForMessagesSettled page fuel previousCount settleMs timeoutMs).
Proof.
  unfold waitForMessagesSettled.
  apply (sends_bind [] []); [apply sends_dateNow | intros t0].
  apply (sends_bind [] []); [apply sends_dateNow | intros t1].
  apply sends_settleFrom.
Qed.

Lemma sends_waitForCooldown : sends [] (waitForCooldown page config).
Proof.
  intros w. unfold post, waitForCooldown.
  destruct (lastFishResponseTime w =? 0); [apply typed_refl |].
  match goal with |- context [if ?c then _ else _] => destruct c end.
  - apply sends_wait.
  - apply typed_refl.
Qed.

Lemma sends_executeAction action :
  enumerated action -> sends (commandKeys config action) (executeAction config action).
Proof.
  intros [-> | [-> | ->]]; unfold executeAction, commandKeys;
    cbn [String.eqb Ascii.eqb Bool.eqb];
    first [apply sends_sendCommand | apply sends_sendCommandWithParams].
Qed.

Lemma sends_issueAndSettle fuel action :
  enumerated action ->
  sends (commandKeys config action) (issueAndSettle page config fuel action).
Proof.
  intros Ha. unfold issueAndSettle.
  apply (sends_bind [] (commandKeys config action)).
  { destruct (action =? "fish")%string; [apply sends_waitForCooldown | apply sends_ret]. }
  intros _.
  apply (sends_bind [] (commandKeys config action));
    [apply sends_getMessageCount | intros n].
  apply sends_then; [now apply sends_executeAction | intros _].
  apply (sends_bind [] []); [apply sends_waitForMessagesSettled | intros _].
  apply sends_wait.
Qed.

Lemma sends_handleCaptcha_text answer fullMessage :
  sends (verifyKeys answer) (handleCaptcha page (TextCaptcha answer fullMessage)).
Proof.
  cbn [handleCaptcha].
  apply sends_then; [apply sends_sendCommandWithParams | intros _; apply sends_wait].
Qed.

(** The first half of a cycle with the recording of the fish response. *)
Lemma sends_first_half fuel action :
  enumerated action ->
  sends (commandKeys config action)
        (issueAndSettle page config fuel action ;;;
         (if (action =? "fish")%string then recordFishResponse else ret tt)).
Proof.
  intros Ha. apply sends_then; [now apply sends_issueAndSettle | intros _].
  destruct (action =? "fish")%string; [apply sends_recordFishResponse | apply sends_ret].
Qed.

End Typing.

(** ** How long the waits last *)

Section Timing.

Variable page : Page.
Variable config : Config.

(** The settle loop returns no earlier than the shorter of its two
    delays, counted from [startTime]: each of its two exits is behind a
    test on [Date.now()]. *)
Lemma settleFrom_elapsed fuel settleMs timeoutMs startTime lastCount lastChangeTime w w' :
  startTime <= lastChangeTime -> startTime <= now w ->
  settleFrom page fuel settleMs timeoutMs startTime lastCount lastChangeTime w =
    Ret tt w' ->
  now w <= now w' /\
  Z.min settleMs timeoutMs <= now w' - startTime.
Proof.
  revert w lastCount lastChangeTime.
  induction fuel as [|fuel IH]; intros w lastCount lastChangeTime Hlct Hstart;
    [discriminate |].
  cbn [settleFrom]. rewrite (bind_eq dateNow _ w (now w) w eq_refl).
  destruct (now w - startTime <? timeoutMs) eqn:Et.
  2:{ intros [= <-]. apply Z.ltb_ge in Et. lia. }
  rewrite (bind_eq _ _ _ _ _ (wait_tenth page w)).
  match goal with |- context [mkWorld ?a ?b ?c ?d] =>
    remember (mkWorld a b c d) as w1 eqn:Ew1
  end.
  assert (Hnow : now w + 100 <= now w1) by (subst w1; cbn [now]; lia).
  clear Ew1.
  rewrite (bind_eq (getMessageCount page) _ w1 _ w1 eq_refl).
  destruct (lastCount <? Z.of_nat (List.length (timeline page (now w1)))).
  - rewrite bind_assoc, (bind_eq dateNow _ w1 (now w1) w1 eq_refl), bind_ret_l.
    rewrite (bind_eq dateNow _ w1 (now w1) w1 eq_refl). cbn [fst snd].
    destruct (settleMs <=? now w1 - now w1) eqn:Es.
    + intros [= <-]. apply Z.leb_le in Es. lia.
    + intros Hrun. apply IH in Hrun; lia.
  - rewrite bind_ret_l, (bind_eq dateNow _ w1 (now w1) w1 eq_refl). cbn [fst snd].
    destruct (settleMs <=? now w1 - lastChangeTime) eqn:Es.
    + intros [= <-]. apply Z.leb_le in Es. lia.
    + intros Hrun. apply IH in Hrun; lia.
Qed.

(** While the last entry does not look like a reply, [getLastMessage]'s
    loop goes on to the end of its three seconds. *)
Lemma getLastMessageFrom_slow fuel startTime w m w' :
  (forall t, now w <= t -> looksReady (lastText (timeline page t)) = false) ->
  getLastMessageFrom page fuel startTime w = Ret m w' ->
  3000 <= now w' - startTime.
Proof.
  revert w; induction fuel as [|fuel IH]; intros w Hnever; [discriminate |].
  cbn [getLastMessageFrom]. rewrite (bind_eq dateNow _ w (now w) w eq_refl).
  destruct (now w - startTime <? 3000) eqn:Et.
  - rewrite (bind_eq _ _ _ _ _ (getLastMessages_recent page 1 w ltac:(lia))).
    change (Z.to_nat 1) with 1%nat. rewrite head_recent_1.
    pose proof (Hnever (now w) ltac:(lia)) as Hr. unfold looksReady in Hr.
    rewrite Hr. rewrite (bind_eq _ _ _ _ _ (wait_tenth page w)).
    apply IH. intros t Ht. apply Hnever. cbn [now] in Ht. lia.
  - rewrite (bind_eq _ _ _ _ _ (getLastMessages_recent page 1 w ltac:(lia))).
    intros [= _ <-]. apply Z.ltb_ge in Et. exact Et.
Qed.

(** A last entry that looks like a reply is returned at once. *)
Lemma getLastMessage_fast k w :
  looksReady (lastText (timeline page (now w))) = true ->
  getLastMessage page (S k) w = Ret (lastText (timeline page (now w))) w.
Proof.
  intros Hready. unfold getLastMessage.
  rewrite (bind_eq dateNow _ w (now w) w eq_refl).
  cbn [getLastMessageFrom]. rewrite (bind_eq dateNow _ w (now w) w eq_refl).
  rewrite Z.sub_diag. change (0 <? 3000) with true. cbv iota.
  rewrite (bind_eq _ _ _ _ _ (getLastMessages_recent page 1 w ltac:(lia))).
  change (Z.to_nat 1) with 1%nat. rewrite head_recent_1.
  unfold looksReady in Hready. now rewrite Hready.
Qed.

End Timing.

(** ** The main loop as a whole *)

Lemma bind_ret_inv {A B} (m : M A) (k : A -> M B) w b w' :
  bind m k w = Ret b w' -> exists a w1, m w = Ret a w1 /\ k a w1 = Ret b w'.
Proof.
  unfold bind. destruct (m w) as [a w1|e w1|]; try discriminate. eauto.
Qed.

Section WholeLoop.

Variable page : Page.
Variable config : Config.

(** From the command to the end of the settle wait and the render delay
    300 ms pass at least: the settle wait does not return before. *)
Lemma issueAndSettle_takes fuel action w w' :
  issueAndSettle page config fuel action w = Ret tt w' -> now w + 300 <= now w'.
Proof.
  unfold issueAndSettle. intros H.
  apply bind_ret_inv in H as ([] & w0 & Hgate & H).
  apply bind_ret_inv in H as (n & w0' & Hcount & H).
  injection Hcount as <- <-.
  apply bind_ret_inv in H as ([] & w1 & Hexec & H).
  apply bind_ret_inv in H as ([] & w2 & Hsettle & H).
  assert (F0 : frame w w0).
  { apply (framed_final (fun _ => True)
             (if (action =? "fish")%string then waitForCooldown page config else ret tt)).
    - destruct (action =? "fish")%string;
        [apply framed_waitForCooldown | apply framed_ret].
    - now rewrite Hgate. }
  assert (F1 : frame w0 w1).
  { apply (framed_final (fun _ => True) (executeAction config action));
      [now apply framed_executeAction | now rewrite Hexec]. }
  assert (F3 : frame w2 w').
  { apply (framed_final (fun _ => True) (wait page 0.3));
      [apply framed_wait | now rewrite H]. }
  unfold waitForMessagesSettled in Hsettle.
  rewrite !(bind_eq dateNow _ w1 (now w1) w1 eq_refl) in Hsettle.
  apply settleFrom_elapsed in Hsettle; [| lia | lia].
  destruct F0 as (_ & _ & N0 & _), F1 as (_ & _ & N1 & _), F3 as (_ & _ & N3 & _).
  lia.
Qed.

(** A cycle leaves [running] alone and does not turn the clock back. *)
Lemma cycle_steady fuel action w w' :
  finalWorld (cycle page config fuel action w) = Some w' ->
  running w' = running w /\ now w <= now w'.
Proof.
  rewrite cycle_body. unfold bind at 1.
  pose proof (framed_issueAndSettle page config (fun _ => True) fuel action I w) as F1.
  unfold post in F1.
  destruct (issueAndSettle page config fuel action w) as [[] w1|e w1|];
    cbn [finalWorld]; [| intros [= <-]; split; apply F1 | discriminate].
  assert (Hrest : forall w2, running w2 = running w1 -> now w2 = now w1 ->
            finalWorld (interpretResponse page fuel w2) = Some w' ->
            running w' = running w /\ now w <= now w').
  { intros w2 R2 N2 Hfin.
    apply (framed_final (fun _ => True) _ _ _
             (framed_interpretResponse page _ fuel I)) in Hfin.
    destruct F1 as (R1 & _ & N1 & _), Hfin as (R3 & _ & N3 & _).
    split; [congruence | lia]. }
  destruct (action =? "fish")%string.
  - rewrite (bind_eq recordFishResponse _ w1 _ _ eq_refl). now apply Hrest.
  - rewrite bind_ret_l. now apply Hrest.
Qed.

(** As long as [running] is set when the loop is entered, the loop is
    left by an error only, and [running] is still set then. *)
Lemma mainLoop_leaves_by_error cycles fuel action w :
  running w = true ->
  match mainLoop page config cycles fuel action w with
  | Ret _ _ => False
  | Throw _ w' => running w' = true
  | OutOfFuel => True
  end.
Proof.
  revert action w; induction cycles as [|cycles IH]; intros action w Hrun; [exact I |].
  cbn [mainLoop]. rewrite Hrun. unfold bind.
  pose proof (cycle_steady fuel action w) as Hs.
  destruct (cycle page config fuel action w) as [a w1|e w1|]; [| | exact I].
  - apply IH. destruct (Hs w1 eq_refl) as [R _]. congruence.
  - destruct (Hs w1 eq_refl) as [R _]. congruence.
Qed.

End WholeLoop.

(** * Further properties of the code *)

(** X1. [getLastMessages(count)] returns the texts of the last [count]
    elements of the page in page order, all of them when the page has
    fewer, and none when [count] is zero or negative; it never throws and
    changes nothing. *)
Theorem getLastMessages_window (page : Page) (count : Z) (w : World) :
  exists messages older,
    getLastMessages page count w = Ret messages w /\
    map textOf (timeline page (now w)) = older ++ messages /\
    Z.of_nat (List.length messages) = Z.min (Z.max 0 count) (countAt page (now w)).
Proof.
  unfold countAt. destruct (Z.ltb_spec count 0) as [Hneg | Hpos].
  - exists [], (map textOf (timeline page (now w))). repeat split.
    + unfold getLastMessages. cbv zeta.
      set (total := Z.of_nat (List.length (timeline page (now w)))).
      assert (Hnone : Z.to_nat (total - Z.max 0 (total - count)) = 0%nat) by lia.
      now rewrite Hnone.
    + now rewrite app_nil_r.
    + cbn [List.length]. lia.
  - set (l := timeline page (now w)).
    exists (recent (Z.to_nat count) l),
           (map textOf (firstn (List.length l - Z.to_nat count) l)).
    repeat split.
    + now apply getLastMessages_recent.
    + unfold recent. now rewrite <- map_app, firstn_skipn.
    + unfold recent. rewrite length_map, length_skipn. lia.
Qed.

(** X2. While the most recent entry does not look like a reply of the
    bot, [getLastMessage] keeps polling for its full three seconds: it
    returns no earlier than 3000 ms after the call, with the text of the
    most recent entry at that moment, and types nothing meanwhile. *)
Theorem getLastMessage_waits_three_seconds (page : Page) (k : nat) (w : World) :
  (forall t, now w <= t -> looksReady (lastText (timeline page t)) = false) ->
  exists w',
    getLastMessage page (31 + k) w = Ret (lastText (timeline page (now w'))) w' /\
    now w + 3000 <= now w' /\
    typed [] w w'.
Proof.
  intros Hnever.
  destruct (getLastMessage_returns page k w) as (w' & Hrun & _).
  exists w'. repeat split; [exact Hrun | |].
  - unfold getLastMessage in Hrun.
    rewrite (bind_eq dateNow _ w (now w) w eq_refl) in Hrun.
    apply (getLastMessageFrom_slow page _ _ _ _ _ Hnever) in Hrun. lia.
  - apply (sends_final _ _ _ _ (sends_getLastMessage page (31 + k))).
    now rewrite Hrun.
Qed.

Lemma getLastMessage_waits_three_seconds_witness :
  exists w',
    getLastMessage (staticPage [Some "hello there, friend"]) (31 + 0) freshWorld =
      Ret "hello there, friend" w' /\
    now freshWorld + 3000 <= now w'.
Proof.
  destruct (getLastMessage_waits_three_seconds
              (staticPage [Some "hello there, friend"]) 0 freshWorld)
    as (w' & Hrun & Hlate & _).
  - intros t _. reflexivity.
  - exists w'. split; [exact Hrun | exact Hlate].
Defined.

(** X3. A most recent entry of more than 10 characters that carries one of
    the bot's phrases as the bot spells it is acted on at once:
    [determineNextAction] returns without waiting and leaves the world as
    it is, with sell for "You ran out of", buy for "You sold" (no depletion
    phrase), and fish for the other four (no depletion or sale phrase). *)
Theorem reply_is_acted_on_at_once (page : Page) (k : nat) (w : World) :
  let m := lastText (timeline page (now w)) in
  10 < Z.of_nat (String.length m) ->
  (Js.includes m "You ran out of" = true ->
   determineNextAction page (S k) w = Ret "sell" w) /\
  (Js.includes m "You sold" = true ->
   Js.includes (Js.toLowerCase m) "you ran out of" = false ->
   determineNextAction page (S k) w = Ret "buy" w) /\
  (Js.includes m "You caught" = true \/ Js.includes m "You bought" = true \/
   Js.includes m "Bait purchase" = true \/ Js.includes m "Anti-bot" = true ->
   Js.includes (Js.toLowerCase m) "you ran out of" = false ->
   Js.includes (Js.toLowerCase m) "you sold" = false ->
   determineNextAction page (S k) w = Ret "fish" w).
Proof.
  cbv zeta. intros Hlen. apply Z.ltb_lt in Hlen.
  assert (Hfast : isVirtualFisherResponse (lastText (timeline page (now w))) = true ->
            forall a, nextActionFor (lastText (timeline page (now w))) = a ->
            determineNextAction page (S k) w = Ret a w).
  { intros Hvf a Ha. unfold determineNextAction.
    rewrite (bind_eq _ _ _ _ _ (getLastMessage_fast page k w
               ltac:(unfold looksReady; now rewrite Hvf, Hlen))).
    unfold ret. now rewrite Ha. }
  repeat split.
  - intros H. apply Hfast.
    + unfold isVirtualFisherResponse. rewrite H, ?orb_true_r. reflexivity.
    + apply JsMore.includes_toLowerCase in H.
      unfold nextActionFor. cbv zeta.
      change (Js.toLowerCase "You ran out of") with "you ran out of" in H.
      now rewrite H.
  - intros H Hno. apply Hfast.
    + unfold isVirtualFisherResponse. rewrite H, ?orb_true_r. reflexivity.
    + apply JsMore.includes_toLowerCase in H.
      unfold nextActionFor. cbv zeta.
      change (Js.toLowerCase "You sold") with "you sold" in H.
      now rewrite Hno, H.
  - intros H Hno1 Hno2. apply Hfast.
    + unfold isVirtualFisherResponse.
      destruct H as [H | [H | [H | H]]]; rewrite H, ?orb_true_r; reflexivity.
    + unfold nextActionFor. cbv zeta. rewrite Hno1, Hno2.
      now destruct (_ || _).
Qed.

Lemma reply_is_acted_on_at_once_witness :
  determineNextAction (staticPage [Some "You ran out of worms!"]) 1 freshWorld =
    Ret "sell" freshWorld.
Proof.
  apply (proj1 (reply_is_acted_on_at_once
                  (staticPage [Some "You ran out of worms!"]) 0 freshWorld
                  ltac:(reflexivity))).
  reflexivity.
Defined.

(** X4. What [detectCaptcha] reports is taken from the page: the message
    of a captcha is one of the two most recent entries and carries the
    marker; the answer of a text captcha is never empty, holds no blank
    and is a piece of that message; an image captcha is reported only for
    a message on which the "Code:" pattern finds nothing. *)
Theorem detectCaptcha_report (page : Page) (w : World) (c : Captcha) :
  detectCaptcha page w = Ret (Some c) w ->
  match c with
  | TextCaptcha answer fullMessage =>
      In fullMessage (recent 2 (timeline page (now w))) /\
      Js.includes (Js.toLowerCase fullMessage) "anti-bot" = true /\
      answer <> "" /\
      allChars (fun ch => negb (Js.isSpace ch)) answer = true /\
      Js.includes fullMessage answer = true
  | ImageCaptcha fullMessage =>
      In fullMessage (recent 2 (timeline page (now w))) /\
      Js.includes (Js.toLowerCase fullMessage) "anti-bot" = true /\
      Js.matchCode fullMessage = None
  end.
Proof.
  rewrite detectCaptcha_recent. intros [= Hc]. revert Hc. unfold captchaIn.
  destruct (find isCaptchaMessage (recent 2 (timeline page (now w))))
    as [m|] eqn:Ef; [| discriminate].
  apply find_some in Ef as [Hin Hmark].
  destruct (Js.falsy (Some m)) eqn:Efalsy; [discriminate |].
  rewrite orElse_self.
  destruct (Js.matchCode m) as [answer|] eqn:Em; intros [= <-].
  - destruct (JsMore.matchCode_group m answer Em) as (Hne & Hnb & Hsub).
    repeat split; assumption.
  - repeat split; assumption.
Qed.

Lemma detectCaptcha_report_witness :
  In "Anti-bot verification - Code: Q7W2"
     (recent 2 (timeline (staticPage [Some "You caught a cod!";
                                      Some "Anti-bot verification - Code: Q7W2"])
                         (now freshWorld))) /\
  "Q7W2" <> "".
Proof.
  destruct (detectCaptcha_report
              (staticPage [Some "You caught a cod!";
                           Some "Anti-bot verification - Code: Q7W2"])
              freshWorld
              (TextCaptcha "Q7W2" "Anti-bot verification - Code: Q7W2") eq_refl)
    as (Hin & _ & Hne & _).
  split; assumption.
Defined.

(** X6. Waiting and reading never type: [waitForMessagesSettled],
    [getLastMessage], [determineNextAction], [waitForCooldown] and
    [detectCaptcha] throw nothing, and between their call and their
    return the only things asked of the page are timers. *)
Theorem waiting_and_reading_type_nothing (page : Page) (config : Config) (fuel : nat) :
  (forall previousCount settleMs timeoutMs,
     sends [] (waitForMessagesSettled page fuel previousCount settleMs timeoutMs)) /\
  sends [] (getLastMessage page fuel) /\
  sends [] (determineNextAction page fuel) /\
  sends [] (waitForCooldown page config) /\
  sends [] (detectCaptcha page).
Proof.
  repeat split.
  - intros. apply sends_waitForMessagesSettled.
  - apply sends_getLastMessage.
  - apply sends_determineNextAction.
  - apply sends_waitForCooldown.
  - apply sends_detectCaptcha.
Qed.

(** X7. A cycle for fish, sell or buy that ends has first typed its own
    command and nothing else, up to the captcha check; what follows is
    decided by that check: without a captcha nothing more is typed, on a
    text captcha the "/verify" of its answer and nothing more, and on an
    image captcha the cycle ends there by the error, with nothing typed
    or waited for after the check. *)
Theorem cycle_types_one_command
        (page : Page) (config : Config) (fuel : nat) (action : string) (w w' : World) :
  enumerated action ->
  finalWorld (cycle page config fuel action w) = Some w' ->
  exists w1,
    (issueAndSettle page config fuel action ;;;
     (if (action =? "fish")%string then recordFishResponse else ret tt)) w =
      Ret tt w1 /\
    typed (commandKeys config action) w w1 /\
    match detectCaptcha page w1 with
    | Ret None _ => typed [] w1 w'
    | Ret (Some (TextCaptcha answer _)) _ => typed (verifyKeys answer) w1 w'
    | Ret (Some (ImageCaptcha _)) _ =>
        w' = w1 /\ cycle page config fuel action w = Throw ImageCaptchaError w1
    | _ => False
    end.
Proof.
  intros Ha. rewrite cycle_body.
  rewrite <- (bind_assoc (issueAndSettle page config fuel action)
                (fun _ => if (action =? "fish")%string then recordFishResponse else ret tt)
                (fun _ => interpretResponse page fuel) w).
  pose proof (sends_first_half page config fuel action Ha w) as H1. unfold post in H1.
  unfold bind at 1 4.
  destruct ((issueAndSettle page config fuel action ;;;
             (if (action =? "fish")%string then recordFishResponse else ret tt)) w)
    as [[] w1|e w1|]; [| contradiction | discriminate].
  intros Hfin. exists w1. split; [reflexivity |]. split; [exact H1 |].
  revert Hfin. unfold interpretResponse.
  rewrite (bind_eq _ _ _ _ _ (detectCaptcha_recent page w1)).
  rewrite detectCaptcha_recent.
  destruct (captchaIn (recent 2 (timeline page (now w1)))) as [[answer full|full]|].
  - pose proof (sends_handleCaptcha_text page answer full w1) as H2. unfold post in H2.
    unfold bind at 1.
    destruct (handleCaptcha page (TextCaptcha answer full) w1) as [[] w2|e w2|];
      [| contradiction | discriminate].
    intros Hfin.
    apply (sends_final _ _ _ _ (sends_determineNextAction page fuel)) in Hfin.
    eapply typed_nothing_after; eauto.
  - cbn [handleCaptcha]. unfold bind, throw. cbn [finalWorld].
    intros [= <-]. split; reflexivity.
  - rewrite bind_ret_l. intros Hfin.
    apply (sends_final _ _ _ _ (sends_determineNextAction page fuel)) in Hfin.
    exact Hfin.
Qed.

Lemma cycle_types_one_command_witness :
  exists w',
    finalWorld (cycle (staticPage [Some "Anti-bot verification - Code: Q7W2"])
                      defaultConfig 60 "fish" freshWorld) = Some w' /\
    exists w1, typed (commandKeys defaultConfig "fish") freshWorld w1 /\
               typed (verifyKeys "Q7W2") w1 w'.
Proof.
  eexists. split; [vm_compute; reflexivity |].
  destruct (cycle_types_one_command
              (staticPage [Some "Anti-bot verification - Code: Q7W2"])
              defaultConfig 60 "fish" freshWorld _
              (or_introl eq_refl) ltac:(vm_compute; reflexivity))
    as (w1 & Hfirst & Hcmd & Hrest).
  exists w1. split; [exact Hcmd |].
  vm_compute in Hfirst. injection Hfirst as <-.
  exact Hrest.
Defined.

(** X8. [waitForMessagesSettled] always returns, and no earlier than the
    shorter of its two delays after the call: with the defaults of
    [start], not before 300 ms have passed on the clock it reads. *)
Theorem settle_wait_duration
        (page : Page) (k : nat) (previousCount settleMs timeoutMs : Z) (w : World) :
  exists w',
    waitForMessagesSettled page (Z.to_nat (timeoutMs / 100) + 2 + k)
                           previousCount settleMs timeoutMs w = Ret tt w' /\
    Z.min settleMs timeoutMs <= now w' - now w.
Proof.
  destruct (waitForMessagesSettled_returns page k previousCount settleMs timeoutMs w)
    as (w' & Hrun & _).
  exists w'. split; [exact Hrun |].
  unfold waitForMessagesSettled in Hrun.
  rewrite !(bind_eq dateNow _ w (now w) w eq_refl) in Hrun.
  apply (settleFrom_elapsed page _ _ _ _ _ _ _ _ (Z.le_refl _) (Z.le_refl _)) in Hrun.
  apply Hrun.
Qed.

(** X10. A cycle for fish, sell or buy never ends sooner than 300 ms,
    by the clock the code reads, after it began: its settle wait does not
    return before, whether the cycle then ends normally or on an image
    captcha. *)
Theorem cycle_takes_300_ms
        (page : Page) (config : Config) (fuel : nat) (action : string) (w w' : World) :
  enumerated action ->
  finalWorld (cycle page config fuel action w) = Some w' ->
  now w + 300 <= now w'.
Proof.
  intros Ha. rewrite cycle_body. unfold bind at 1.
  pose proof (issueAndSettle_enumerated page config (fun _ => False) fuel action Ha w)
    as F1. unfold post in F1.
  pose proof (issueAndSettle_takes page config fuel action w) as Htakes.
  destruct (issueAndSettle page config fuel action w) as [[] w1|e w1|];
    [| tauto | discriminate].
  specialize (Htakes w1 eq_refl).
  assert (Hrest : forall w2, now w2 = now w1 ->
            finalWorld (interpretResponse page fuel w2) = Some w' ->
            now w + 300 <= now w').
  { intros w2 N2 Hfin.
    apply (framed_final (fun _ => True) _ _ _
             (framed_interpretResponse page _ fuel I)) in Hfin.
    destruct Hfin as (_ & _ & N3 & _). lia. }
  destruct (action =? "fish")%string.
  - rewrite (bind_eq recordFishResponse _ w1 _ _ eq_refl). now apply Hrest.
  - rewrite bind_ret_l. now apply Hrest.
Qed.

Lemma cycle_takes_300_ms_witness :
  exists w',
    finalWorld (cycle (staticPage [Some "You sold 3 fish for 12 coins"])
                      defaultConfig 60 "sell" freshWorld) = Some w' /\
    now freshWorld + 300 <= now w'.
Proof.
  eexists. split; [vm_compute; reflexivity |].
  apply (cycle_takes_300_ms (staticPage [Some "You sold 3 fish for 12 coins"])
           defaultConfig 60 "sell" freshWorld).
  - right; left; reflexivity.
  - vm_compute. reflexivity.
Defined.

(** X11. Nothing in the loop clears [running]: [start] never returns
    normally, it is left by a thrown error only (unless [stop()] is called
    from outside while it runs), and [running] is still set then. *)
Theorem start_is_left_by_error_only
        (page : Page) (config : Config) (cycles fuel : nat) (w : World) :
  match start page config cycles fuel w with
  | Ret _ _ => False
  | Throw _ w' => running w' = true
  | OutOfFuel => True
  end.
Proof.
  unfold start. rewrite (bind_eq (setRunning true) _ w _ _ eq_refl).
  now apply mainLoop_leaves_by_error.
Qed.

(** X12. On a newly constructed [Fisher], [start] begins with a fish
    cycle from the constructed state with [running] set.  That cycle ends
    (it returns or throws) on every page, and what it asks of the page
    begins with typing "/fish": no cooldown timer comes before the first
    command.  The loop goes on from where that cycle ends, or stops there
    with its error. *)
Theorem new_fisher_fishes_first
        (page : Page) (config : Config) (k : nat) (clock : Z) :
  exists first,
    first = cycle page config (52 + k) "fish" (mkWorld clock true 0 []) /\
    (exists w1 events,
       finalWorld first = Some w1 /\
       trace w1 = Fill "/fish" :: Press "Enter" :: Press "Enter" :: events) /\
    forall cycles,
      start page config (S cycles) (52 + k) (newFisher clock) =
      match first with
      | Ret nextAction w1 => mainLoop page config cycles (52 + k) nextAction w1
      | Throw e w1 => Throw e w1
      | OutOfFuel => OutOfFuel
      end.
Proof.
  eexists. split; [reflexivity |]. split.
  - destruct (cycle_ends page config k "fish" (mkWorld clock true 0 [])) as (w1 & Hend).
    destruct (fish_cycle_trace page config (52 + k) _ w1 Hend)
      as (w0 & events & Hgate & T).
    injection Hgate as <-.
    exists w1, events. split; [exact Hend | exact T].
  - intros cycles. reflexivity.
Qed.

(** X13. The two revisions of the class in src/fisher.js decide alike on
    a page whose most recent entry stays the same: the earlier
    [determineNextAction] returns the decision on that entry at once and
    leaves the world as it is, the later one returns the same decision
    after its polling. *)
Theorem revisions_decide_alike (page : Page) (m : string) (k : nat) (w : World) :
  (forall t, now w <= t -> lastText (timeline page t) = m) ->
  Earlier.determineNextAction page w = Ret (nextActionFor m) w /\
  exists w', determineNextAction page (31 + k) w = Ret (nextActionFor m) w'.
Proof.
  intros Hstable. split.
  - unfold Earlier.determineNextAction, Earlier.getLastMessage.
    rewrite bind_assoc.
    rewrite (bind_eq _ _ _ _ _ (getLastMessages_recent page 1 w ltac:(lia))).
    change (Z.to_nat 1) with 1%nat. rewrite bind_ret_l, head_recent_1.
    unfold ret. now rewrite (Hstable (now w)) by lia.
  - destruct (determineNextAction_returns page k w) as (w' & Hrun & Hframe).
    exists w'. rewrite Hrun.
    destruct Hframe as (_ & _ & Hnow & _). now rewrite (Hstable (now w') Hnow).
Qed.

Lemma revisions_decide_alike_witness :
  Earlier.determineNextAction (staticPage [Some "you sold everything"]) freshWorld =
    Ret "buy" freshWorld /\
  exists w',
    determineNextAction (staticPage [Some "you sold everything"]) (31 + 0) freshWorld =
      Ret "buy" w'.
Proof.
  apply (revisions_decide_alike (staticPage [Some "you sold everything"])
           "you sold everything" 0 freshWorld).
  intros t _. reflexivity.
Defined.
